(** * browser-passworder: a shallow embedding of [dist/index.js]

    The module composes the platform's primitives (Web Crypto, [JSON],
    [Buffer], [btoa]) into a password-based vault codec and offers two
    independent hex utilities.

    - The hex utilities are embedded completely, down to [parseInt],
      [Number.prototype.toString] and the typed-array store.
    - The vault codec is embedded over an explicit [Platform] record
      holding the primitives the module calls but does not define.  What
      a proof needs from them is stated as a law of the platform and
      appears as a hypothesis of the theorem; [Toy.platform] meets all
      the laws at once.
    - A string is its sequence of UTF-16 code units, a [Uint8Array] a
      list of bytes, an object its list of properties.
    - An [async] function returns a [result]: a value, or the exception
      it was rejected with.  The functions that draw random bytes also
      thread the state of the random source. *)

From Stdlib Require Import String Ascii ZArith NArith Bool Lia Arith List.
From Stdlib.Strings Require Import Byte.
Import ListNotations.

Set Implicit Arguments.

(* ================================================================= *)
(** * Part I: definitions *)
(* ================================================================= *)

(** ** JavaScript strings and byte arrays *)

(** A JavaScript string is a sequence of UTF-16 code units. *)
Definition code_unit := N.
Definition jsstring := list code_unit.

Definition js (s : string) : jsstring :=
  map N_of_ascii (list_ascii_of_string s).
Coercion js : string >-> jsstring.

(** [a === b] on two strings. *)
Fixpoint jsstring_eqb (a b : jsstring) : bool :=
  match a, b with
  | [], [] => true
  | x :: a', y :: b' => N.eqb x y && jsstring_eqb a' b'
  | _, _ => false
  end.

(** [str.slice(0, n)], [str.slice(n)] and [str.substr(i, n)] for
    non-negative [i] and [n]. *)
Definition slice_to (n : nat) (s : jsstring) : jsstring := firstn n s.
Definition slice_from (n : nat) (s : jsstring) : jsstring := skipn n s.
Definition substr (s : jsstring) (i n : nat) : jsstring := firstn n (skipn i s).

(** A [Uint8Array] is a fixed-length sequence of bytes. *)
Definition bytes := list byte.

(** [new Uint8Array(len)]: the array is zero-filled.  A fractional
    [len] is truncated to an integer ([ToIndex], ECMAScript 2017 and
    later); the caller below does this with [Nat.div]. *)
Definition Uint8Array_new (len : nat) : bytes := repeat x00 len.

(** [ToUint8]: the conversion applied to a number stored in a
    [Uint8Array].  A number is [None] for [NaN] and [Some z] for the
    integer [z]; [NaN] is stored as [0], an integer modulo [2^8]. *)
Definition ToUint8 (v : option Z) : byte :=
  match v with
  | None => x00
  | Some z =>
      match Byte.of_N (Z.to_N (z mod 256)) with
      | Some b => b
      | None => x00
      end
  end.

(** [buf[idx] = b] on a typed array: a write outside the array is
    ignored, the length never changes. *)
Fixpoint Uint8Array_set (buf : bytes) (idx : nat) (b : byte) : bytes :=
  match buf, idx with
  | [], _ => []
  | _ :: buf', O => b :: buf'
  | x :: buf', S idx' => x :: Uint8Array_set buf' idx' b
  end.

(** ** [Number.prototype.toString(16)] and [parseInt] *)

(** The lowercase digit of a value below 36: ["0".."9"], ["a".."z"]. *)
Definition digit_char (d : N) : code_unit :=
  if (d <? 10)%N then (48 + d)%N else (87 + d)%N.

Fixpoint toString_digits (fuel : nat) (radix n : N) (acc : jsstring) : jsstring :=
  match fuel with
  | O => acc
  | S fuel' =>
      let acc' := digit_char (n mod radix) :: acc in
      if (n / radix =? 0)%N then acc' else toString_digits fuel' radix (n / radix) acc'
  end.

(** [num.toString(radix)] for a non-negative integer [num] and a radix
    from 2 to 36: the digits of [num], most significant first, no
    padding.  A number has no more digits than bits. *)
Definition Number_toString (num radix : N) : jsstring :=
  toString_digits (S (N.to_nat (N.size num))) radix num [].

(** [WhiteSpace] and [LineTerminator] code units, skipped by [parseInt]. *)
Definition is_whitespace (c : code_unit) : bool :=
  ((9 <=? c) && (c <=? 13) || (c =? 32) || (c =? 160) || (c =? 0x1680)
   || (0x2000 <=? c) && (c <=? 0x200A) || (c =? 0x2028) || (c =? 0x2029)
   || (c =? 0x202F) || (c =? 0x205F) || (c =? 0x3000) || (c =? 0xFEFF))%N.

Fixpoint trim_start (s : jsstring) : jsstring :=
  match s with
  | c :: s' => if is_whitespace c then trim_start s' else s
  | [] => []
  end.

(** The value of a digit in the given radix, if it is one. *)
Definition digit_value (radix : N) (c : code_unit) : option N :=
  let v :=
    if ((48 <=? c) && (c <=? 57))%N then Some (c - 48)%N
    else if ((97 <=? c) && (c <=? 122))%N then Some (c - 87)%N
    else if ((65 <=? c) && (c <=? 90))%N then Some (c - 55)%N
    else None in
  match v with
  | Some d => if (d <? radix)%N then Some d else None
  | None => None
  end.

(** The value of the longest prefix of [s] made of digits; [acc] is
    [None] until a digit has been read. *)
Fixpoint parse_digits (radix : N) (s : jsstring) (acc : option N) : option N :=
  match s with
  | [] => acc
  | c :: s' =>
      match digit_value radix c with
      | Some d =>
          let a := match acc with Some a => a | None => 0%N end in
          parse_digits radix s' (Some (radix * a + d)%N)
      | None => acc
      end
  end.

(** [parseInt(string, radix)] (ECMA-262, 19.2.5).  [None] is [NaN]; the
    sign of a zero is not kept, [ToUint8] does not look at it. *)
Definition parseInt (s : jsstring) (radix : N) : option Z :=
  let s1 := trim_start s in
  let '(sign, s2) :=
    match s1 with
    | 45%N :: r => ((-1)%Z, r)
    | 43%N :: r => (1%Z, r)
    | _ => (1%Z, s1)
    end in
  if (negb (radix =? 0) && ((radix <? 2) || (36 <? radix)))%N then None
  else
    let strip_prefix := ((radix =? 0) || (radix =? 16))%N in
    let '(r, s3) :=
      match s2 with
      | 48%N :: x :: rest =>
          if strip_prefix && ((x =? 120) || (x =? 88))%N then (16%N, rest)
          else ((if radix =? 0 then 10 else radix)%N, s2)
      | _ => ((if radix =? 0 then 10 else radix)%N, s2)
      end in
    match parse_digits r s3 None with
    | Some n => Some (sign * Z.of_N n)%Z
    | None => None
    end.

(** ** The hex utilities *)

(** [while (hex.length < 2) { hex = `0${hex}` }]; every pass makes the
    string one longer, so [2 - hex.length] passes are enough. *)
Fixpoint pad_while (fuel : nat) (hex : jsstring) : jsstring :=
  match fuel with
  | O => hex
  | S fuel' =>
      if length hex <? 2 then pad_while fuel' (48%N :: hex) else hex
  end.

Definition unprefixedHex (num : N) : jsstring :=
  let hex := Number_toString num 16 in
  pad_while (2 - length hex) hex.

Definition serializeBufferForStorage (buffer : bytes) : jsstring :=
  fold_left (fun result value => result ++ unprefixedHex (Byte.to_N value))
            buffer (js "0x").

(** [for (let i = 0; i < stripStr.length; i += 2) { ... }]; [i] grows
    by two on every pass, so [stripStr.length] passes are enough. *)
Fixpoint from_storage_loop (fuel : nat) (stripStr : jsstring) (i : nat)
         (buf : bytes) : bytes :=
  match fuel with
  | O => buf
  | S fuel' =>
      if i <? length stripStr then
        let seg := substr stripStr i 2 in
        from_storage_loop fuel' stripStr (i + 2)
          (Uint8Array_set buf (i / 2) (ToUint8 (parseInt seg 16)))
      else buf
  end.

Definition strip_0x (str : jsstring) : jsstring :=
  if jsstring_eqb (slice_to 2 str) (js "0x") then slice_from 2 str else str.

Definition serializeBufferFromStorage (str : jsstring) : bytes :=
  let stripStr := strip_0x str in
  let buf := Uint8Array_new (length stripStr / 2) in
  from_storage_loop (length stripStr) stripStr 0 buf.

(** The two inputs the specification calls malformed: an odd number of
    characters after the optional prefix, or a character that is not a
    hex digit. *)
Definition is_hex_digit (c : code_unit) : bool :=
  match digit_value 16 c with Some _ => true | None => false end.

Definition malformed_hex (str : jsstring) : Prop :=
  Nat.odd (length (strip_0x str)) = true
  \/ exists c, In c (strip_0x str) /\ is_hex_digit c = false.

(** The hex storage format in the specification's words: two lowercase
    hex digits for every byte, in order, after the prefix. *)
Definition two_hex_digits (b : byte) : jsstring :=
  [digit_char (Byte.to_N b / 16); digit_char (Byte.to_N b mod 16)].

Definition hex_storage_format (buffer : bytes) : jsstring :=
  js "0x" ++ flat_map two_hex_digits buffer.

(** ** JavaScript values, exceptions and effects *)

(** The values [JSON.parse] returns and [JSON.stringify] accepts.  An
    object keeps its properties in insertion order.  Numbers are carried
    as integers: the module never computes with them. *)
#[local] Unset Elimination Schemes.
Inductive json : Type :=
| JNull
| JBool (b : bool)
| JNum (n : Z)
| JStr (s : jsstring)
| JArr (items : list json)
| JObj (fields : list (jsstring * json)).
#[local] Set Elimination Schemes.

(** A value that may be [undefined]. *)
Definition jsvalue := option json.
Definition undefined : jsvalue := None.

(** What can be thrown: the platform's [TypeError], [SyntaxError] and
    [DOMException]s, and [new Error(message)], the only exception the
    module builds itself. *)
Inductive exn : Type :=
| TypeError
| SyntaxError
| DOMException (name : jsstring)
| Error (message : jsstring).

(** Whether an exception was built by the module: the source has one
    [throw] statement, of an [Error]. *)
Definition built_by_module (e : exn) : bool :=
  match e with
  | Error _ => true
  | _ => false
  end.

(** The outcome of a call: a value, or a thrown exception (a rejected
    promise for an [async] function). *)
Inductive result (A : Type) : Type :=
| Ok (a : A)
| Err (e : exn).
Arguments Ok {A} a.
Arguments Err {A} e.

Class Monad (m : Type -> Type) : Type := {
  ret : forall {A : Type}, A -> m A;
  bind : forall {A B : Type}, m A -> (A -> m B) -> m B
}.

Notation "x <- c1 ;; c2" := (bind c1 (fun x => c2))
  (at level 61, c1 at next level, right associativity).

#[export] Instance result_monad : Monad result := {
  ret := fun A a => Ok a;
  bind := fun A B m k => match m with Ok a => k a | Err e => Err e end
}.

(** [try { body } catch (e) { handler }] *)
Definition try_catch {A : Type} (body : result A) (handler : exn -> result A)
  : result A :=
  match body with
  | Ok a => Ok a
  | Err e => handler e
  end.

(** Calls that draw random bytes thread the state [W] of the random
    source; a throw leaves the state where it was. *)
Definition M (W A : Type) : Type := W -> result A * W.

#[export] Instance M_monad (W : Type) : Monad (M W) := {
  ret := fun A a w => (Ok a, w);
  bind := fun A B m k w =>
            match m w with
            | (Ok a, w') => k a w'
            | (Err e, w') => (Err e, w')
            end
}.

(** A call that draws no random bytes, made from one that does. *)
Definition lift {W A : Type} (r : result A) : M W A := fun w => (r, w).

(** ** Objects *)

Fixpoint lookup (name : jsstring) (fields : list (jsstring * json)) : jsvalue :=
  match fields with
  | [] => undefined
  | (k, v) :: rest => if jsstring_eqb k name then Some v else lookup name rest
  end.

(** [obj.name = v] on an ordinary object: an existing property keeps its
    place, a new one goes last. *)
Fixpoint set_field (name : jsstring) (v : json) (fields : list (jsstring * json))
  : list (jsstring * json) :=
  match fields with
  | [] => [(name, v)]
  | (k, x) :: rest =>
      if jsstring_eqb k name then (k, v) :: rest
      else (k, x) :: set_field name v rest
  end.

(** [value.name] and [const { name } = value], for the names ["data"],
    ["iv"] and ["salt"], which no built-in prototype defines: reading
    from [null] throws, reading from a string, number, boolean or array
    gives [undefined]. *)
Definition get_prop (value : json) (name : jsstring) : result jsvalue :=
  match value with
  | JNull => Err TypeError
  | JObj fields => Ok (lookup name fields)
  | _ => Ok undefined
  end.

(** ** The platform *)

(** A [CryptoKey]: its public attributes and the key material behind
    its handle. *)
Record CryptoKey : Type := {
  key_algorithm : jsstring;
  key_extractable : bool;
  key_usages : list jsstring;
  key_handle : bytes
}.

(** The [keyData] argument of [subtle.importKey]. *)
Inductive key_data : Type :=
| RawKeyData (b : bytes)
| JwkKeyData (jwk : json).

(** The algorithm arguments the module builds. *)
Inductive algorithm : Type :=
| AlgName (name : jsstring)
| AlgPbkdf2 (name : jsstring) (salt : bytes) (iterations : N) (hash : jsstring)
| AlgAesKey (name : jsstring) (length : N)
| AlgAesGcm (name : jsstring) (iv : bytes).

(** What the module takes from its environment: [global.crypto],
    [JSON], [Buffer] and [btoa].  Only [getRandomValues] has an effect;
    the [subtle] operations are functions of their arguments. *)
Record Platform : Type := {
  world : Type;
  crypto_getRandomValues : nat -> M world bytes;
  subtle_importKey :
    jsstring -> key_data -> algorithm -> bool -> list jsstring -> result CryptoKey;
  subtle_deriveKey :
    algorithm -> CryptoKey -> algorithm -> bool -> list jsstring -> result CryptoKey;
  subtle_exportKey : jsstring -> CryptoKey -> result json;
  subtle_encrypt : algorithm -> CryptoKey -> bytes -> result bytes;
  subtle_decrypt : algorithm -> CryptoKey -> bytes -> result bytes;
  JSON_stringify : json -> jsstring;
  JSON_parse : jsstring -> option json;
  Buffer_from_string : jsstring -> jsstring -> bytes;
  Buffer_from_object : json -> result bytes;
  Buffer_toString : bytes -> jsstring -> jsstring;
  btoa : jsstring -> result jsstring
}.

(** ** The vault codec *)

Definition EXPORT_FORMAT : jsstring := js "jwk".
Definition DERIVED_KEY_FORMAT : jsstring := js "AES-GCM".
Definition STRING_ENCODING : jsstring := js "utf-8".

(** [{ vault, exportedKeyString }] *)
Record DetailedEncryptionResult : Type := {
  der_vault : jsstring;
  der_exportedKeyString : jsstring
}.

(** [{ exportedKeyString, vault, salt }] *)
Record DetailedDecryptResult : Type := {
  ddr_exportedKeyString : jsstring;
  ddr_vault : json;
  ddr_salt : jsvalue
}.

(** [String.fromCharCode.apply(null, view)] *)
Definition String_fromCharCode (view : bytes) : jsstring := map Byte.to_N view.

Section Codec.

Variable P : Platform.

(** [JSON.parse(text)]: a [SyntaxError] when [text] is not JSON. *)
Definition JSON_parse_or_throw (text : jsstring) : result json :=
  match JSON_parse P text with
  | Some v => Ok v
  | None => Err SyntaxError
  end.

(** [Buffer.from(value, encoding)]: a string is decoded, an array or
    object is left to the platform, anything else is a [TypeError]. *)
Definition Buffer_from (value : jsvalue) (encoding : jsstring) : result bytes :=
  match value with
  | Some (JStr s) => Ok (Buffer_from_string P s encoding)
  | Some (JArr items) => Buffer_from_object P (JArr items)
  | Some (JObj fields) => Buffer_from_object P (JObj fields)
  | _ => Err TypeError
  end.

Definition generateSalt (byteCount : nat) : M (world P) jsstring :=
  view <- crypto_getRandomValues P byteCount ;;
  b64encoded <- lift (btoa P (String_fromCharCode view)) ;;
  ret b64encoded.

Definition keyFromPassword (password : jsstring) (salt : jsvalue)
           (exportable : bool) : result CryptoKey :=
  passBuffer <- Buffer_from (Some (JStr password)) STRING_ENCODING ;;
  saltBuffer <- Buffer_from salt (js "base64") ;;
  key <- subtle_importKey P (js "raw") (RawKeyData passBuffer)
           (AlgName (js "PBKDF2")) false [js "deriveBits"; js "deriveKey"] ;;
  derivedKey <- subtle_deriveKey P
                  (AlgPbkdf2 (js "PBKDF2") saltBuffer 10000 (js "SHA-256"))
                  key (AlgAesKey DERIVED_KEY_FORMAT 256) exportable
                  [js "encrypt"; js "decrypt"] ;;
  ret derivedKey.

Definition importKey (keyString : jsstring) : result CryptoKey :=
  jwk <- JSON_parse_or_throw keyString ;;
  key <- subtle_importKey P EXPORT_FORMAT (JwkKeyData jwk)
           (AlgName DERIVED_KEY_FORMAT) true [js "encrypt"; js "decrypt"] ;;
  ret key.

Definition exportKey (key : CryptoKey) : result jsstring :=
  exportedKey <- subtle_exportKey P EXPORT_FORMAT key ;;
  ret (JSON_stringify P exportedKey).

(** The object [{ data: vaultStr, iv: vectorStr }] is returned as its
    list of properties. *)
Definition encryptWithKey (key : CryptoKey) (dataObj : json)
  : M (world P) (list (jsstring * json)) :=
  let data := JSON_stringify P dataObj in
  let dataBuffer := Buffer_from_string P data STRING_ENCODING in
  vector <- crypto_getRandomValues P 16 ;;
  buf <- lift (subtle_encrypt P (AlgAesGcm DERIVED_KEY_FORMAT vector) key dataBuffer) ;;
  let buffer := buf in
  let vectorStr := Buffer_toString P vector (js "base64") in
  let vaultStr := Buffer_toString P buffer (js "base64") in
  ret [(js "data", JStr vaultStr); (js "iv", JStr vectorStr)].

(** An omitted [key] or [salt] is [None]; a [CryptoKey] is an object,
    so [key || ...] takes the key whenever one is given. *)
Definition encrypt (password : jsstring) (dataObj : json)
           (key : option CryptoKey) (salt : option jsstring)
  : M (world P) jsstring :=
  salt <- match salt with Some s => ret s | None => generateSalt 32 end ;;
  cryptoKey <- match key with
               | Some k => ret k
               | None => lift (keyFromPassword password (Some (JStr salt)) false)
               end ;;
  payload <- encryptWithKey cryptoKey dataObj ;;
  let payload := set_field (js "salt") (JStr salt) payload in
  ret (JSON_stringify P (JObj payload)).

Definition encryptWithDetail (password : jsstring) (dataObj : json)
           (salt : option jsstring) : M (world P) DetailedEncryptionResult :=
  salt <- match salt with Some s => ret s | None => generateSalt 32 end ;;
  key <- lift (keyFromPassword password (Some (JStr salt)) true) ;;
  exportedKeyString <- lift (exportKey key) ;;
  vault <- encrypt password dataObj (Some key) (Some salt) ;;
  ret {| der_vault := vault; der_exportedKeyString := exportedKeyString |}.

Definition decryptWithKey (key : CryptoKey) (payload : json) : result json :=
  data <- get_prop payload (js "data") ;;
  encryptedData <- Buffer_from data (js "base64") ;;
  iv <- get_prop payload (js "iv") ;;
  vector <- Buffer_from iv (js "base64") ;;
  decryptedObj <-
    try_catch
      (result <- subtle_decrypt P (AlgAesGcm DERIVED_KEY_FORMAT vector) key
                   encryptedData ;;
       let decryptedData := result in
       let decryptedStr := Buffer_toString P decryptedData STRING_ENCODING in
       JSON_parse_or_throw decryptedStr)
      (fun e => Err (Error (js "Incorrect password"))) ;;
  ret decryptedObj.

Definition decrypt (password : jsstring) (text : jsstring)
           (key : option CryptoKey) : result json :=
  payload <- JSON_parse_or_throw text ;;
  salt <- get_prop payload (js "salt") ;;
  cryptoKey <- match key with
               | Some k => ret k
               | None => keyFromPassword password salt false
               end ;;
  result <- decryptWithKey cryptoKey payload ;;
  ret result.

Definition decryptWithDetail (password : jsstring) (text : jsstring)
  : result DetailedDecryptResult :=
  payload <- JSON_parse_or_throw text ;;
  salt <- get_prop payload (js "salt") ;;
  key <- keyFromPassword password salt true ;;
  exportedKeyString <- exportKey key ;;
  vault <- decrypt password text (Some key) ;;
  ret {| ddr_exportedKeyString := exportedKeyString;
         ddr_vault := vault;
         ddr_salt := salt |}.

End Codec.

(** ** What the proofs ask of the platform *)

Section Laws.

Variable P : Platform.

(** The object [encrypt] serialises. *)
Definition vault_object (data iv salt : jsstring) : json :=
  JObj [(js "data", JStr data); (js "iv", JStr iv); (js "salt", JStr salt)].

(** [Buffer.from(buf.toString('base64'), 'base64')] gives [buf] back. *)
Definition base64_roundtrip : Prop :=
  forall b : bytes,
    Buffer_from_string P (Buffer_toString P b (js "base64")) (js "base64") = b.

(** The text [JSON.stringify] writes survives UTF-8 encoding and decoding. *)
Definition utf8_roundtrip_on_json : Prop :=
  forall v : json,
    Buffer_toString P
      (Buffer_from_string P (JSON_stringify P v) STRING_ENCODING) STRING_ENCODING
    = JSON_stringify P v.

(** [JSON.parse] reads back an object of three strings. *)
Definition json_roundtrip_on_vaults : Prop :=
  forall data iv salt : jsstring,
    JSON_parse P (JSON_stringify P (vault_object data iv salt))
    = Some (vault_object data iv salt).

(** [JSON.parse] reads back an exported JSON Web Key. *)
Definition json_roundtrip_on_jwk : Prop :=
  forall (k : CryptoKey) (jwk : json),
    subtle_exportKey P EXPORT_FORMAT k = Ok jwk ->
    JSON_parse P (JSON_stringify P jwk) = Some jwk.

(** AES-GCM decryption undoes encryption under the same key and
    parameters, if the key may decrypt. *)
Definition aes_gcm_decrypts_own : Prop :=
  forall (alg : algorithm) (k : CryptoKey) (pt ct : bytes),
    In (js "decrypt") (key_usages k) ->
    subtle_encrypt P alg k pt = Ok ct ->
    subtle_decrypt P alg k ct = Ok pt.

(** A derived key has the attributes [deriveKey] was asked for. *)
Definition derived_key_attributes : Prop :=
  forall (a : algorithm) (base : CryptoKey) (name : jsstring) (len : N)
         (ext : bool) (us : list jsstring) (k : CryptoKey),
    subtle_deriveKey P a base (AlgAesKey name len) ext us = Ok k ->
    key_algorithm k = name /\ key_extractable k = ext /\ key_usages k = us.

(** An imported key has the attributes [importKey] was asked for. *)
Definition imported_key_attributes : Prop :=
  forall (fmt : jsstring) (d : key_data) (name : jsstring)
         (ext : bool) (us : list jsstring) (k : CryptoKey),
    subtle_importKey P fmt d (AlgName name) ext us = Ok k ->
    key_algorithm k = name /\ key_extractable k = ext /\ key_usages k = us.

(** [exportKey] succeeds on an extractable AES-GCM key. *)
Definition extractable_key_exports : Prop :=
  forall k : CryptoKey,
    key_extractable k = true ->
    key_algorithm k = DERIVED_KEY_FORMAT ->
    exists jwk, subtle_exportKey P EXPORT_FORMAT k = Ok jwk.

(** Importing the JSON Web Key exported from an AES-GCM key for
    encryption and decryption, with these usages, gives a key that
    decrypts as the exported one does. *)
Definition jwk_import_of_export : Prop :=
  forall (k : CryptoKey) (jwk : json),
    key_algorithm k = DERIVED_KEY_FORMAT ->
    key_usages k = [js "encrypt"; js "decrypt"] ->
    subtle_exportKey P EXPORT_FORMAT k = Ok jwk ->
    exists k',
      subtle_importKey P EXPORT_FORMAT (JwkKeyData jwk)
        (AlgName DERIVED_KEY_FORMAT) true [js "encrypt"; js "decrypt"] = Ok k'
      /\ forall alg ct, subtle_decrypt P alg k' ct = subtle_decrypt P alg k ct.

(** The platform does not fail where the module gives it nothing to
    fail on: random bytes within the quota, [btoa] on byte-sized code
    units, PBKDF2 from a password and a salt, AES-GCM encryption under a
    key made for it. *)
Definition random_values_available : Prop :=
  forall (n : nat) (w : world P),
    (N.of_nat n <= 65536)%N ->
    exists b w', crypto_getRandomValues P n w = (Ok b, w').

Definition btoa_encodes_bytes : Prop :=
  forall view : bytes, exists s, btoa P (String_fromCharCode view) = Ok s.

Definition password_key_derivable : Prop :=
  forall (passBuffer saltBuffer : bytes) (exportable : bool),
    exists base k,
      subtle_importKey P (js "raw") (RawKeyData passBuffer)
        (AlgName (js "PBKDF2")) false [js "deriveBits"; js "deriveKey"] = Ok base
      /\ subtle_deriveKey P
           (AlgPbkdf2 (js "PBKDF2") saltBuffer 10000 (js "SHA-256"))
           base (AlgAesKey DERIVED_KEY_FORMAT 256) exportable
           [js "encrypt"; js "decrypt"] = Ok k.

Definition aes_gcm_encrypts : Prop :=
  forall (iv : bytes) (k : CryptoKey) (pt : bytes),
    key_algorithm k = DERIVED_KEY_FORMAT ->
    In (js "encrypt") (key_usages k) ->
    exists ct, subtle_encrypt P (AlgAesGcm DERIVED_KEY_FORMAT iv) k pt = Ok ct.

End Laws.

(** ** A small platform *)

(** A platform simple enough to run inside the proof assistant; it
    shows that the laws above can be met together and gives the
    theorems concrete instances.  Its random source is a counter, its
    cipher writes the key and the vector in front of the plaintext and
    checks them on the way back, base64 is one code unit per byte,
    UTF-8 is unary and JSON is a length-prefixed record of strings. *)
Module Toy.

Definition byte_of_N (n : N) : byte :=
  match Byte.of_N (n mod 256) with
  | Some b => b
  | None => x00
  end.

Definition random_values (n : nat) : M nat bytes :=
  fun w => (Ok (map (fun i => byte_of_N (N.of_nat i)) (seq w n)), w + n).

Definition unary_encode (s : jsstring) : bytes :=
  flat_map (fun c => repeat x01 (N.to_nat c) ++ [x00]) s.

Fixpoint unary_decode (acc : N) (b : bytes) : jsstring :=
  match b with
  | [] => []
  | x00 :: rest => acc :: unary_decode 0 rest
  | _ :: rest => unary_decode (acc + 1) rest
  end.

Definition from_string (s encoding : jsstring) : bytes :=
  if jsstring_eqb encoding (js "base64") then map byte_of_N s
  else unary_encode s.

Definition to_string (b : bytes) (encoding : jsstring) : jsstring :=
  if jsstring_eqb encoding (js "base64") then map Byte.to_N b
  else unary_decode 0 b.

Fixpoint encode_fields (fields : list (jsstring * json)) : jsstring :=
  match fields with
  | [] => []
  | (k, v) :: rest =>
      N.of_nat (length k) :: k
      ++ match v with
         | JStr x => N.of_nat (length x) :: x
         | _ => [0%N]
         end
      ++ encode_fields rest
  end.

Fixpoint decode_fields (fuel : nat) (s : jsstring)
  : option (list (jsstring * json)) :=
  match fuel with
  | O => None
  | S fuel' =>
      match s with
      | [] => Some []
      | n :: r =>
          if length r <? N.to_nat n then None
          else
            match skipn (N.to_nat n) r with
            | [] => None
            | m :: r2 =>
                if length r2 <? N.to_nat m then None
                else
                  match decode_fields fuel' (skipn (N.to_nat m) r2) with
                  | Some rest =>
                      Some ((firstn (N.to_nat n) r,
                             JStr (firstn (N.to_nat m) r2)) :: rest)
                  | None => None
                  end
            end
      end
  end.

Definition stringify (v : json) : jsstring :=
  match v with
  | JObj fields => encode_fields fields
  | _ => []
  end.

Definition parse (s : jsstring) : option json :=
  match decode_fields (S (length s)) s with
  | Some fields => Some (JObj fields)
  | None => None
  end.

Fixpoint bytes_prefix (p l : bytes) : bool :=
  match p, l with
  | [], _ => true
  | x :: p', y :: l' => Byte.eqb x y && bytes_prefix p' l'
  | _ :: _, [] => false
  end.

Definition import_key (format : jsstring) (d : key_data) (alg : algorithm)
           (extractable : bool) (usages : list jsstring) : result CryptoKey :=
  match d, alg with
  | RawKeyData b, AlgName name =>
      Ok {| key_algorithm := name; key_extractable := extractable;
            key_usages := usages; key_handle := b |}
  | JwkKeyData (JObj [(_, JStr k)]), AlgName name =>
      Ok {| key_algorithm := name; key_extractable := extractable;
            key_usages := usages; key_handle := map byte_of_N k |}
  | _, _ => Err (DOMException (js "DataError"))
  end.

Definition derive_key (alg : algorithm) (base : CryptoKey) (derived : algorithm)
           (extractable : bool) (usages : list jsstring) : result CryptoKey :=
  match alg, derived with
  | AlgPbkdf2 _ salt _ _, AlgAesKey name _ =>
      Ok {| key_algorithm := name; key_extractable := extractable;
            key_usages := usages; key_handle := key_handle base ++ salt |}
  | _, _ => Err (DOMException (js "NotSupportedError"))
  end.

Definition export_key (format : jsstring) (k : CryptoKey) : result json :=
  if key_extractable k
  then Ok (JObj [(js "k", JStr (map Byte.to_N (key_handle k)))])
  else Err (DOMException (js "InvalidAccessError")).

Definition aes_encrypt (alg : algorithm) (k : CryptoKey) (pt : bytes) : result bytes :=
  match alg with
  | AlgAesGcm _ iv => Ok ((key_handle k ++ iv) ++ pt)
  | _ => Err (DOMException (js "NotSupportedError"))
  end.

Definition aes_decrypt (alg : algorithm) (k : CryptoKey) (ct : bytes) : result bytes :=
  match alg with
  | AlgAesGcm _ iv =>
      if bytes_prefix (key_handle k ++ iv) ct
      then Ok (skipn (length (key_handle k ++ iv)) ct)
      else Err (DOMException (js "OperationError"))
  | _ => Err (DOMException (js "NotSupportedError"))
  end.

Definition platform : Platform := {|
  world := nat;
  crypto_getRandomValues := random_values;
  subtle_importKey := import_key;
  subtle_deriveKey := derive_key;
  subtle_exportKey := export_key;
  subtle_encrypt := aes_encrypt;
  subtle_decrypt := aes_decrypt;
  JSON_stringify := stringify;
  JSON_parse := parse;
  Buffer_from_string := from_string;
  Buffer_from_object := fun _ => Err TypeError;
  Buffer_toString := to_string;
  btoa := fun s => Ok s
|}.

(** The record of strings [{ k1: v1, ... }]. *)
Definition record (l : list (jsstring * jsstring)) : list (jsstring * json) :=
  map (fun kv => (fst kv, JStr (snd kv))) l.

(** Sample inputs: a payload, a salt, the vault and the key string made
    from them, a vault without salt, and a ciphertext whose plaintext
    is not JSON. *)
Definition sample_payload : json := JObj [(js "a", JStr (js "1"))].
Definition sample_salt : jsstring := js "c2FsdA==".

Definition sample_vault : jsstring :=
  match encrypt platform (js "pw") sample_payload None (Some sample_salt) 0 with
  | (Ok vault, _) => vault
  | (Err _, _) => []
  end.

Definition sample_vault_drawn_salt : jsstring :=
  match encrypt platform (js "pw") sample_payload None None 0 with
  | (Ok vault, _) => vault
  | (Err _, _) => []
  end.

Definition sample_detail : DetailedEncryptionResult :=
  match encryptWithDetail platform (js "pw") sample_payload (Some sample_salt) 0 with
  | (Ok r, _) => r
  | (Err _, _) => {| der_vault := []; der_exportedKeyString := [] |}
  end.

Definition sample_key : CryptoKey :=
  {| key_algorithm := DERIVED_KEY_FORMAT; key_extractable := false;
     key_usages := [js "encrypt"; js "decrypt"]; key_handle := [x6b] |}.

Definition other_key : CryptoKey :=
  {| key_algorithm := DERIVED_KEY_FORMAT; key_extractable := false;
     key_usages := [js "encrypt"; js "decrypt"]; key_handle := [x6c] |}.

Definition sample_encryption : list (jsstring * json) :=
  match encryptWithKey platform sample_key sample_payload 0 with
  | (Ok payload, _) => payload
  | (Err _, _) => []
  end.

Definition saltless_fields : list (jsstring * json) :=
  [(js "data", JStr (js "k1")); (js "iv", JStr (js "1"))].

Definition saltless_vault : jsstring := stringify (JObj saltless_fields).

(** In [data]: the bytes [k] and [1], then the unary text of a string
    of the single code unit 5, which [parse] refuses.  Under
    [sample_key] and the vector [1] the cipher accepts [data] and
    decrypts it to that text. *)
Definition not_json_payload : json :=
  JObj [(js "data", JStr [107; 49; 1; 1; 1; 1; 1; 0]%N); (js "iv", JStr (js "1"))].

End Toy.

(** ** Further notions used by the theorems *)

(** The decoding loop of [serializeBufferFromStorage] read as a
    recursion on the stripped string, two characters at a time; the
    loop is proved equal to it. *)
Fixpoint decode_pairs (s : jsstring) : bytes :=
  match s with
  | c1 :: c2 :: rest => ToUint8 (parseInt [c1; c2] 16) :: decode_pairs rest
  | _ => []
  end.

(** The digits [serializeBufferForStorage] writes: ["0".."9"], ["a".."f"]. *)
Definition is_lower_hex (c : code_unit) : bool :=
  ((48 <=? c) && (c <=? 57) || (97 <=? c) && (c <=? 102))%N.

(** The sixteen digits with their values, and the six upper-case ones. *)
Definition lower_hex_table : list (code_unit * N) :=
  [(48, 0); (49, 1); (50, 2); (51, 3); (52, 4); (53, 5); (54, 6); (55, 7);
   (56, 8); (57, 9); (97, 10); (98, 11); (99, 12); (100, 13); (101, 14);
   (102, 15)]%N.

Definition hex_table : list (code_unit * N) :=
  lower_hex_table
  ++ [(65, 10); (66, 11); (67, 12); (68, 13); (69, 14); (70, 15)]%N.

(** The values [Buffer.from] refuses with a [TypeError]: [undefined],
    [null], booleans and numbers. *)
Definition not_bufferable (v : jsvalue) : bool :=
  match v with
  | None => true
  | Some JNull => true
  | Some (JBool _) => true
  | Some (JNum _) => true
  | Some _ => false
  end.

Section MoreLaws.

Variable P : Platform.

(** The [extractable] flag given to [deriveKey] changes neither whether
    a key is derived nor how the key decrypts. *)
Definition extractable_flag_irrelevant : Prop :=
  forall (a : algorithm) (base : CryptoKey) (d : algorithm)
         (us : list jsstring) (e1 e2 : bool) (k1 : CryptoKey),
    subtle_deriveKey P a base d e1 us = Ok k1 ->
    exists k2,
      subtle_deriveKey P a base d e2 us = Ok k2
      /\ forall alg ct, subtle_decrypt P alg k2 ct = subtle_decrypt P alg k1 ct.

(** [exportKey] refuses a key that is not extractable, with an error of
    the platform's choice. *)
Definition non_extractable_key_refused : Prop :=
  forall k : CryptoKey,
    key_extractable k = false ->
    exists e, subtle_exportKey P EXPORT_FORMAT k = Err e.

(** [btoa] of a string of byte-sized code units is the base64 text
    that [Buffer.from(..., 'base64')] decodes to those bytes. *)
Definition btoa_is_base64 : Prop :=
  forall (view : bytes) (s : jsstring),
    btoa P (String_fromCharCode view) = Ok s ->
    Buffer_from_string P s (js "base64") = view.

End MoreLaws.

(** [Toy.platform] with the UTF-8 encoding of [Buffer.from]: a code
    point below [0x80] is one byte, below [0x800] two, a surrogate pair
    four, any other three; a surrogate without its partner is written as
    [U+FFFD], the bytes [EF BF BD].  The decoder is for one-byte
    characters, which is all the sample texts hold. *)
Module Lossy.

Definition is_high_surrogate (c : code_unit) : bool :=
  ((0xD800 <=? c) && (c <=? 0xDBFF))%N.

Definition is_low_surrogate (c : code_unit) : bool :=
  ((0xDC00 <=? c) && (c <=? 0xDFFF))%N.

Definition encode_code_point (cp : N) : bytes :=
  (if cp <? 0x80 then [Toy.byte_of_N cp]
   else if cp <? 0x800 then
     [Toy.byte_of_N (0xC0 + cp / 64); Toy.byte_of_N (0x80 + cp mod 64)]
   else if cp <? 0x10000 then
     [Toy.byte_of_N (0xE0 + cp / 4096);
      Toy.byte_of_N (0x80 + (cp / 64) mod 64);
      Toy.byte_of_N (0x80 + cp mod 64)]
   else
     [Toy.byte_of_N (0xF0 + cp / 262144);
      Toy.byte_of_N (0x80 + (cp / 4096) mod 64);
      Toy.byte_of_N (0x80 + (cp / 64) mod 64);
      Toy.byte_of_N (0x80 + cp mod 64)])%N.

Fixpoint utf8_encode (s : jsstring) : bytes :=
  match s with
  | [] => []
  | c :: rest =>
      if is_high_surrogate c then
        match rest with
        | l :: rest' =>
            if is_low_surrogate l
            then encode_code_point
                   (0x10000 + (c - 0xD800) * 0x400 + (l - 0xDC00))%N
                 ++ utf8_encode rest'
            else [xef; xbf; xbd] ++ utf8_encode rest
        | [] => [xef; xbf; xbd]
        end
      else if is_low_surrogate c then [xef; xbf; xbd] ++ utf8_encode rest
      else encode_code_point c ++ utf8_encode rest
  end.

Definition utf8_decode (b : bytes) : jsstring :=
  map (fun x => if (Byte.to_N x <? 0x80)%N then Byte.to_N x else 0xFFFD%N) b.

Definition from_string (s encoding : jsstring) : bytes :=
  if jsstring_eqb encoding (js "base64") then map Toy.byte_of_N s
  else utf8_encode s.

Definition to_string (b : bytes) (encoding : jsstring) : jsstring :=
  if jsstring_eqb encoding (js "base64") then map Byte.to_N b
  else utf8_decode b.

Definition platform : Platform := {|
  world := nat;
  crypto_getRandomValues := Toy.random_values;
  subtle_importKey := Toy.import_key;
  subtle_deriveKey := Toy.derive_key;
  subtle_exportKey := Toy.export_key;
  subtle_encrypt := Toy.aes_encrypt;
  subtle_decrypt := Toy.aes_decrypt;
  JSON_stringify := Toy.stringify;
  JSON_parse := Toy.parse;
  Buffer_from_string := from_string;
  Buffer_from_object := fun _ => Err TypeError;
  Buffer_toString := to_string;
  btoa := fun s => Ok s
|}.

(** The password ["pw"] followed by the unpaired surrogate [U+D800],
    and followed by the unpaired surrogate [U+D801]. *)
Definition password1 : jsstring := js "pw" ++ [0xD800%N].
Definition password2 : jsstring := js "pw" ++ [0xD801%N].

Definition vault : jsstring :=
  match encrypt platform password1 Toy.sample_payload None
          (Some Toy.sample_salt) 0 with
  | (Ok v, _) => v
  | (Err _, _) => []
  end.

End Lossy.

(** More sample inputs for [Toy.platform]. *)
Module Samples.

Definition payload_without_iv : json := JObj [(js "data", JStr (js "k1"))].

Definition payload_numeric_data : json :=
  JObj [(js "data", JNum 7); (js "iv", JStr (js "1"))].

(** A text that [Toy.parse] refuses: it announces more characters than
    it has. *)
Definition not_json : jsstring := [5%N].

Definition vault_with_key : jsstring :=
  match encrypt Toy.platform (js "pw") Toy.sample_payload (Some Toy.sample_key)
          (Some Toy.sample_salt) 0 with
  | (Ok vault, _) => vault
  | (Err _, _) => []
  end.

Definition detail_drawn_salt : DetailedEncryptionResult :=
  match encryptWithDetail Toy.platform (js "pw") Toy.sample_payload None 0 with
  | (Ok r, _) => r
  | (Err _, _) => {| der_vault := []; der_exportedKeyString := [] |}
  end.

Definition wrong_exportable_key : CryptoKey :=
  match keyFromPassword Toy.platform (js "no") (Some (JStr Toy.sample_salt))
          true with
  | Ok k => k
  | Err _ => Toy.sample_key
  end.

Definition derived_key : CryptoKey :=
  match keyFromPassword Toy.platform (js "pw") (Some (JStr Toy.sample_salt))
          false with
  | Ok k => k
  | Err _ => Toy.sample_key
  end.

End Samples.

(* ================================================================= *)
(** * Part II: theorems *)
(* ================================================================= *)

Unset Implicit Arguments.

(** ** Typed-array writes *)

Lemma Uint8Array_set_length (buf : bytes) (idx : nat) (b : byte) :
  length (Uint8Array_set buf idx b) = length buf.
Proof.
  revert idx; induction buf as [|x buf IH]; intros [|idx]; simpl; auto.
Qed.

Lemma nth_error_Uint8Array_set (buf : bytes) (idx j : nat) (b : byte) :
  nth_error (Uint8Array_set buf idx b) j =
  if (j =? idx) && (idx <? length buf) then Some b else nth_error buf j.
Proof.
  revert idx j; induction buf as [|x buf IH]; intros [|idx] [|j]; simpl;
    rewrite ?andb_false_r; auto.
Qed.

(** ** The decoding loop *)

(** What the loop leaves in the array when it is entered at [i = 2 * k]
    with enough passes left: the slots below [k] are kept, every later
    slot holds the parsed pair of characters at its position. *)
Lemma from_storage_loop_spec (stripStr : jsstring) :
  forall (fuel k : nat) (buf : bytes),
    length buf = length stripStr / 2 ->
    length stripStr <= 2 * (fuel + k) ->
    length (from_storage_loop fuel stripStr (2 * k) buf) = length buf /\
    forall j, j < length buf ->
      nth_error (from_storage_loop fuel stripStr (2 * k) buf) j =
      if j <? k then nth_error buf j
      else Some (ToUint8 (parseInt (substr stripStr (2 * j) 2) 16)).
Proof.
  assert (Hexit : forall k j (buf : bytes),
             length buf = length stripStr / 2 ->
             length stripStr <= 2 * k -> j < length buf -> j < k).
  { intros k j buf Hlen Hk Hj.
    assert (length stripStr / 2 <= k); [|lia].
    transitivity (2 * k / 2).
    - now apply Nat.Div0.div_le_mono.
    - rewrite Nat.mul_comm, Nat.div_mul; lia. }
  induction fuel as [|fuel IH]; intros k buf Hlen Hfuel;
    cbn [from_storage_loop].
  - split; [reflexivity|]. intros j Hj.
    assert (j < k) by (apply (Hexit k j buf); auto; lia).
    destruct (Nat.ltb_spec j k); [reflexivity | lia].
  - destruct (Nat.ltb_spec (2 * k) (length stripStr)) as [Hin|Hout].
    + replace (2 * k + 2) with (2 * S k) by lia.
      replace (2 * k / 2) with k
        by (rewrite Nat.mul_comm, Nat.div_mul; lia).
      set (b := ToUint8 (parseInt (substr stripStr (2 * k) 2) 16)).
      destruct (IH (S k) (Uint8Array_set buf k b)) as [HL HN].
      * now rewrite Uint8Array_set_length.
      * lia.
      * rewrite Uint8Array_set_length in HL, HN.
        split; [exact HL|]. intros j Hj.
        rewrite (HN j Hj), nth_error_Uint8Array_set.
        destruct (Nat.ltb_spec j (S k)), (Nat.ltb_spec j k),
                 (Nat.eqb_spec j k), (Nat.ltb_spec k (length buf));
          cbn [andb]; subst; try reflexivity; lia.
    + split; [reflexivity|]. intros j Hj.
      assert (j < k) by (apply (Hexit k j buf); auto).
      destruct (Nat.ltb_spec j k); [reflexivity | lia].
Qed.

(** [serializeBufferFromStorage] slot by slot. *)
Lemma serializeBufferFromStorage_spec (str : jsstring) :
  length (serializeBufferFromStorage str) = length (strip_0x str) / 2 /\
  forall j, j < length (strip_0x str) / 2 ->
    nth_error (serializeBufferFromStorage str) j =
    Some (ToUint8 (parseInt (substr (strip_0x str) (2 * j) 2) 16)).
Proof.
  unfold serializeBufferFromStorage.
  set (s := strip_0x str).
  destruct (from_storage_loop_spec s (length s) 0 (Uint8Array_new (length s / 2)))
    as [HL HN].
  - apply repeat_length.
  - lia.
  - unfold Uint8Array_new in *. rewrite repeat_length in *.
    change (2 * 0) with 0 in *.
    split; [exact HL|]. intros j Hj. now rewrite (HN j Hj).
Qed.

(** The passes given to the loop are enough: more change nothing. *)
Lemma from_storage_loop_enough (stripStr : jsstring) (fuel : nat) :
  length stripStr <= fuel ->
  from_storage_loop fuel stripStr 0 (Uint8Array_new (length stripStr / 2)) =
  from_storage_loop (length stripStr) stripStr 0
    (Uint8Array_new (length stripStr / 2)).
Proof.
  intros Hfuel.
  set (buf := Uint8Array_new (length stripStr / 2)).
  assert (Hbuf : length buf = length stripStr / 2) by apply repeat_length.
  destruct (from_storage_loop_spec stripStr fuel 0 buf) as [L1 N1];
    [exact Hbuf | lia |].
  destruct (from_storage_loop_spec stripStr (length stripStr) 0 buf)
    as [L2 N2]; [exact Hbuf | lia |].
  change (2 * 0) with 0 in *.
  apply nth_error_ext. intros j.
  destruct (Nat.lt_ge_cases j (length buf)) as [Hj|Hj].
  - now rewrite N1, N2.
  - transitivity (@None byte); [|symmetry]; apply nth_error_None; lia.
Qed.

(** ** The encoder *)

Lemma pad_while_exit (fuel : nat) (hex : jsstring) :
  2 - length hex <= fuel -> 2 <= length (pad_while fuel hex).
Proof.
  revert hex; induction fuel as [|fuel IH]; intros hex H; cbn [pad_while].
  - lia.
  - destruct (Nat.ltb_spec (length hex) 2); [|assumption].
    apply IH. cbn [length]. lia.
Qed.

(** The padding loop of [unprefixedHex] is left by its own test, not by
    running out of passes. *)
Lemma unprefixedHex_padded (num : N) : 2 <= length (unprefixedHex num).
Proof. unfold unprefixedHex. now apply pad_while_exit. Qed.

Lemma unprefixedHex_byte (b : byte) :
  unprefixedHex (Byte.to_N b) = two_hex_digits b.
Proof. destruct b; reflexivity. Qed.

Lemma digit_char_lower_hex (d : N) :
  (d < 16)%N -> In (digit_char d) (js "0123456789abcdef").
Proof.
  intros H. assert (Hd : exists n, n < 16 /\ d = N.of_nat n).
  { exists (N.to_nat d). split; [lia | now rewrite N2Nat.id]. }
  destruct Hd as (n & Hn & ->).
  do 16 (destruct n as [|n]; [vm_compute; tauto|]). lia.
Qed.

Lemma serializeBufferForStorage_fold (buffer : bytes) (acc : jsstring) :
  fold_left (fun result value => result ++ unprefixedHex (Byte.to_N value))
            buffer acc
  = acc ++ flat_map two_hex_digits buffer.
Proof.
  revert acc; induction buffer as [|b buffer IH]; intros acc; simpl.
  - now rewrite app_nil_r.
  - rewrite IH, unprefixedHex_byte, <- app_assoc. reflexivity.
Qed.

Lemma serializeBufferForStorage_format (buffer : bytes) :
  serializeBufferForStorage buffer = hex_storage_format buffer.
Proof. apply serializeBufferForStorage_fold. Qed.

(** ** Decoding what the encoder wrote *)

Lemma parse_two_hex_digits (b : byte) :
  ToUint8 (parseInt (two_hex_digits b) 16) = b.
Proof. destruct b; reflexivity. Qed.

Lemma length_flat_map_two_hex_digits (buffer : bytes) :
  length (flat_map two_hex_digits buffer) = 2 * length buffer.
Proof. induction buffer as [|b buffer IH]; simpl; lia. Qed.

Lemma substr_flat_map_two_hex_digits (buffer : bytes) :
  forall (k : nat) (b : byte),
    nth_error buffer k = Some b ->
    substr (flat_map two_hex_digits buffer) (2 * k) 2 = two_hex_digits b.
Proof.
  unfold substr.
  induction buffer as [|x buffer IH]; intros [|k] b H; simpl in H; try discriminate.
  - now inversion H.
  - replace (2 * S k) with (S (S (2 * k))) by lia. simpl. now apply IH.
Qed.

Lemma strip_0x_hex_storage_format (buffer : bytes) :
  strip_0x (hex_storage_format buffer) = flat_map two_hex_digits buffer.
Proof. reflexivity. Qed.

Example ex_for_storage :
  serializeBufferForStorage [x00; x0f; xab; xff] = js "0x000fabff".
Proof. reflexivity. Qed.

Example ex_from_storage :
  serializeBufferFromStorage (js "0x000fabff") = [x00; x0f; xab; xff].
Proof. reflexivity. Qed.

Example ex_parseInt :
  parseInt (js "ff") 16 = Some 255%Z
  /\ parseInt (js " f") 16 = Some 15%Z
  /\ parseInt (js "-1") 16 = Some (-1)%Z
  /\ parseInt (js "1g") 16 = Some 1%Z
  /\ parseInt (js "0x") 16 = None
  /\ parseInt (js "zz") 16 = None.
Proof. repeat split. Qed.

Example ex_unprefixedHex :
  Number_toString 10 16 = js "a" /\ unprefixedHex 10 = js "0a"
  /\ unprefixedHex 255 = js "ff" /\ unprefixedHex 0 = js "00".
Proof. repeat split. Qed.

Example ex_from_storage_bad :
  serializeBufferFromStorage (js "zz1g-1 f0xabc") = [x00; x01; xff; x0f; x00; xab].
Proof. reflexivity. Qed.

(** ** The hex utilities: the claims *)

(** C8. Decoding what [serializeBufferForStorage] wrote gives the bytes
    back; the empty buffer is written as ["0x"]; and every byte is
    written, in order, as two lowercase hex digits after the prefix. *)
Theorem hex_storage_roundtrip :
  (forall buffer : bytes,
      serializeBufferFromStorage (serializeBufferForStorage buffer) = buffer)
  /\ serializeBufferForStorage [] = js "0x"
  /\ (forall buffer : bytes,
         serializeBufferForStorage buffer
         = js "0x" ++ flat_map two_hex_digits buffer)
  /\ (forall b : byte,
         In (digit_char (Byte.to_N b / 16)) (js "0123456789abcdef")
         /\ In (digit_char (Byte.to_N b mod 16)) (js "0123456789abcdef")).
Proof.
  split; [|split; [reflexivity|split]].
  - intros buffer. rewrite serializeBufferForStorage_format.
    destruct (serializeBufferFromStorage_spec (hex_storage_format buffer))
      as [HL HN].
    rewrite strip_0x_hex_storage_format, length_flat_map_two_hex_digits in HL, HN.
    replace (2 * length buffer / 2) with (length buffer) in HL, HN
      by (rewrite Nat.mul_comm, Nat.div_mul; lia).
    apply nth_error_ext. intros j.
    destruct (Nat.lt_ge_cases j (length buffer)) as [Hj|Hj].
    + rewrite (HN j Hj).
      destruct (nth_error buffer j) as [b|] eqn:Hb.
      * now rewrite (substr_flat_map_two_hex_digits buffer j b Hb),
          parse_two_hex_digits.
      * apply nth_error_None in Hb. lia.
    + transitivity (@None byte); [|symmetry]; apply nth_error_None; lia.
  - exact serializeBufferForStorage_format.
  - intros b. split; apply digit_char_lower_hex.
    + assert (Byte.to_N b < 256)%N by (destruct b; reflexivity).
      apply N.Div0.div_lt_upper_bound. lia.
    + apply N.mod_lt. discriminate.
Qed.

(** C7, as stated, fails: an input of odd length and an input of
    characters that are no hex digits both give a byte array. *)
Lemma serializeBufferFromStorage_accepts_malformed :
  (malformed_hex (js "abc") /\ serializeBufferFromStorage (js "abc") = [xab])
  /\ (malformed_hex (js "zz") /\ serializeBufferFromStorage (js "zz") = [x00]).
Proof.
  split; split; try reflexivity.
  - left. reflexivity.
  - right. exists 122%N. split; [left; reflexivity | reflexivity].
Qed.

(** C7 (amended). [serializeBufferFromStorage] raises no error on any
    string: for [n] characters after the optional prefix it returns
    [n / 2] bytes, rounded down, and byte [j] is what [parseInt] reads
    in radix 16 from the characters [2j] and [2j + 1], stored as a
    [Uint8] ([0] when that is [NaN]); a last unpaired character is
    dropped. *)
Theorem serializeBufferFromStorage_total :
  forall str : jsstring,
    length (serializeBufferFromStorage str) = length (strip_0x str) / 2
    /\ forall j, j < length (strip_0x str) / 2 ->
         nth_error (serializeBufferFromStorage str) j
         = Some (ToUint8 (parseInt (substr (strip_0x str) (2 * j) 2) 16)).
Proof.
  intros str. unfold serializeBufferFromStorage.
  set (stripStr := strip_0x str).
  set (buf := Uint8Array_new (length stripStr / 2)).
  assert (Hbuf : length buf = length stripStr / 2) by apply repeat_length.
  destruct (from_storage_loop_spec stripStr (length stripStr) 0 buf Hbuf)
    as [HL HN]; [lia|].
  change (2 * 0) with 0 in HL, HN. rewrite Hbuf in HL, HN.
  split; [exact HL|].
  intros j Hj. rewrite (HN j Hj). reflexivity.
Qed.

(** ** The vault codec *)

Section CodecFacts.

Variable P : Platform.

Lemma bind_M_inv {W A B : Type} (m : M W A) (k : A -> M W B)
      (w w' : W) (b : B) :
  (x <- m ;; k x) w = (Ok b, w') ->
  exists a w1, m w = (Ok a, w1) /\ k a w1 = (Ok b, w').
Proof.
  cbn. destruct (m w) as [[a|e] w1]; intros H; [|discriminate H].
  exists a, w1. auto.
Qed.

Lemma bind_result_inv {A B : Type} (m : result A) (k : A -> result B) (b : B) :
  (x <- m ;; k x) = Ok b -> exists a, m = Ok a /\ k a = Ok b.
Proof.
  cbn. destruct m as [a|e]; intros H; [|discriminate H]. exists a. auto.
Qed.

Lemma lift_inv {W A : Type} (r : result A) (w w' : W) (a : A) :
  lift r w = (Ok a, w') -> r = Ok a /\ w' = w.
Proof. unfold lift. intros H. inversion H. auto. Qed.

Lemma ret_M_inv {W A : Type} (a b : A) (w w' : W) :
  (ret a : M W A) w = (Ok b, w') -> b = a /\ w' = w.
Proof. cbn. intros H. inversion H. auto. Qed.

Lemma get_prop_vault_object (data iv salt : jsstring) :
  get_prop (vault_object data iv salt) (js "data") = Ok (Some (JStr data))
  /\ get_prop (vault_object data iv salt) (js "iv") = Ok (Some (JStr iv))
  /\ get_prop (vault_object data iv salt) (js "salt") = Ok (Some (JStr salt)).
Proof. repeat split. Qed.

(** What a successful [encryptWithKey] did. *)
Lemma encryptWithKey_inv (key : CryptoKey) (dataObj : json)
      (w w' : world P) (payload : list (jsstring * json)) :
  encryptWithKey P key dataObj w = (Ok payload, w') ->
  exists vector ct : bytes,
    crypto_getRandomValues P 16 w = (Ok vector, w')
    /\ subtle_encrypt P (AlgAesGcm DERIVED_KEY_FORMAT vector) key
         (Buffer_from_string P (JSON_stringify P dataObj) STRING_ENCODING) = Ok ct
    /\ payload = [(js "data", JStr (Buffer_toString P ct (js "base64")));
                  (js "iv", JStr (Buffer_toString P vector (js "base64")))].
Proof.
  unfold encryptWithKey. intros H.
  apply bind_M_inv in H. destruct H as (vector & w1 & Hv & H).
  apply bind_M_inv in H. destruct H as (ct & w2 & Hc & H).
  apply lift_inv in Hc. destruct Hc as [Hc ->].
  apply ret_M_inv in H. destruct H as [-> ->].
  exists vector, ct. auto.
Qed.

(** What a successful [encrypt] did: the salt it used, the key it used,
    the vector it drew and the ciphertext it got. *)
Lemma encrypt_inv (password : jsstring) (dataObj : json)
      (key : option CryptoKey) (salt : option jsstring)
      (w w' : world P) (vault : jsstring) :
  encrypt P password dataObj key salt w = (Ok vault, w') ->
  exists (s : jsstring) (w1 : world P) (k : CryptoKey) (vector ct : bytes),
    match salt with
    | Some s0 => s = s0 /\ w1 = w
    | None => generateSalt P 32 w = (Ok s, w1)
    end
    /\ match key with
       | Some k0 => k = k0
       | None => keyFromPassword P password (Some (JStr s)) false = Ok k
       end
    /\ crypto_getRandomValues P 16 w1 = (Ok vector, w')
    /\ subtle_encrypt P (AlgAesGcm DERIVED_KEY_FORMAT vector) k
         (Buffer_from_string P (JSON_stringify P dataObj) STRING_ENCODING) = Ok ct
    /\ vault = JSON_stringify P
                 (vault_object (Buffer_toString P ct (js "base64"))
                               (Buffer_toString P vector (js "base64")) s).
Proof.
  unfold encrypt. intros H.
  apply bind_M_inv in H. destruct H as (s & w1 & Hs & H).
  apply bind_M_inv in H. destruct H as (k & w2 & Hk & H).
  apply bind_M_inv in H. destruct H as (payload & w3 & Hp & H).
  apply ret_M_inv in H. destruct H as [-> ->].
  apply encryptWithKey_inv in Hp. destruct Hp as (vector & ct & Hv & Hc & ->).
  assert (Hw : w2 = w1 /\ match key with
                          | Some k0 => k = k0
                          | None => keyFromPassword P password (Some (JStr s)) false = Ok k
                          end).
  { destruct key as [k0|].
    - apply ret_M_inv in Hk. destruct Hk as [-> ->]. auto.
    - apply lift_inv in Hk. destruct Hk as [Hk ->]. auto. }
  destruct Hw as [-> Hkey].
  exists s, w1, k, vector, ct. repeat split; auto.
  destruct salt as [s0|]; [|exact Hs].
  apply ret_M_inv in Hs. destruct Hs as [-> ->]. auto.
Qed.

(** [decryptWithKey] once the ciphertext and the vector are decoded:
    what is left is the guarded block. *)
Lemma decryptWithKey_guarded (key : CryptoKey) (payload : json)
      (data iv : jsvalue) (encryptedData vector : bytes) :
  get_prop payload (js "data") = Ok data ->
  Buffer_from P data (js "base64") = Ok encryptedData ->
  get_prop payload (js "iv") = Ok iv ->
  Buffer_from P iv (js "base64") = Ok vector ->
  decryptWithKey P key payload =
  try_catch
    (result <- subtle_decrypt P (AlgAesGcm DERIVED_KEY_FORMAT vector) key
                 encryptedData ;;
     JSON_parse_or_throw P (Buffer_toString P result STRING_ENCODING))
    (fun _ => Err (Error (js "Incorrect password"))).
Proof.
  intros Hd He Hi Hv. unfold decryptWithKey.
  rewrite Hd; cbn [bind result_monad]. rewrite He; cbn [bind result_monad].
  rewrite Hi; cbn [bind result_monad]. rewrite Hv; cbn [bind result_monad].
  destruct (try_catch _ _); reflexivity.
Qed.

(** The three ways out of the guarded block. *)
Lemma decryptWithKey_ok (key : CryptoKey) (payload : json)
      (data iv : jsvalue) (encryptedData vector pt : bytes) (v : json) :
  get_prop payload (js "data") = Ok data ->
  Buffer_from P data (js "base64") = Ok encryptedData ->
  get_prop payload (js "iv") = Ok iv ->
  Buffer_from P iv (js "base64") = Ok vector ->
  subtle_decrypt P (AlgAesGcm DERIVED_KEY_FORMAT vector) key encryptedData = Ok pt ->
  JSON_parse P (Buffer_toString P pt STRING_ENCODING) = Some v ->
  decryptWithKey P key payload = Ok v.
Proof.
  intros Hd He Hi Hv Hdec Hparse.
  rewrite (decryptWithKey_guarded key payload _ _ _ _ Hd He Hi Hv), Hdec.
  cbn [bind result_monad]. unfold JSON_parse_or_throw. now rewrite Hparse.
Qed.

Lemma decryptWithKey_rejected (key : CryptoKey) (payload : json)
      (data iv : jsvalue) (encryptedData vector : bytes) (e : exn) :
  get_prop payload (js "data") = Ok data ->
  Buffer_from P data (js "base64") = Ok encryptedData ->
  get_prop payload (js "iv") = Ok iv ->
  Buffer_from P iv (js "base64") = Ok vector ->
  subtle_decrypt P (AlgAesGcm DERIVED_KEY_FORMAT vector) key encryptedData = Err e ->
  decryptWithKey P key payload = Err (Error (js "Incorrect password")).
Proof.
  intros Hd He Hi Hv Hdec.
  now rewrite (decryptWithKey_guarded key payload _ _ _ _ Hd He Hi Hv), Hdec.
Qed.

Lemma decryptWithKey_not_json (key : CryptoKey) (payload : json)
      (data iv : jsvalue) (encryptedData vector pt : bytes) :
  get_prop payload (js "data") = Ok data ->
  Buffer_from P data (js "base64") = Ok encryptedData ->
  get_prop payload (js "iv") = Ok iv ->
  Buffer_from P iv (js "base64") = Ok vector ->
  subtle_decrypt P (AlgAesGcm DERIVED_KEY_FORMAT vector) key encryptedData = Ok pt ->
  JSON_parse P (Buffer_toString P pt STRING_ENCODING) = None ->
  decryptWithKey P key payload = Err (Error (js "Incorrect password")).
Proof.
  intros Hd He Hi Hv Hdec Hparse.
  rewrite (decryptWithKey_guarded key payload _ _ _ _ Hd He Hi Hv), Hdec.
  cbn [bind result_monad]. unfold JSON_parse_or_throw. now rewrite Hparse.
Qed.

(** [decrypt] without a key, on a text that parses: the salt found in
    the payload goes to [keyFromPassword], the key to [decryptWithKey]. *)
Lemma decrypt_steps (password text : jsstring) (payload : json)
      (salt : jsvalue) :
  JSON_parse P text = Some payload ->
  get_prop payload (js "salt") = Ok salt ->
  decrypt P password text None =
  (cryptoKey <- keyFromPassword P password salt false ;;
   decryptWithKey P cryptoKey payload).
Proof.
  intros Hp Hs. unfold decrypt, JSON_parse_or_throw. rewrite Hp.
  cbn [bind result_monad]. rewrite Hs. cbn [bind result_monad].
  destruct (keyFromPassword P password salt false) as [k|e];
    cbn [bind result_monad]; [|reflexivity].
  destruct (decryptWithKey P k payload); reflexivity.
Qed.

(** A key that [keyFromPassword] returns has the attributes it asked
    the platform for. *)
Lemma keyFromPassword_attributes (password : jsstring) (salt : jsvalue)
      (exportable : bool) (k : CryptoKey) :
  derived_key_attributes P ->
  keyFromPassword P password salt exportable = Ok k ->
  key_algorithm k = DERIVED_KEY_FORMAT
  /\ key_extractable k = exportable
  /\ key_usages k = [js "encrypt"; js "decrypt"].
Proof.
  intros Hattr H. unfold keyFromPassword in H.
  apply bind_result_inv in H. destruct H as (pb & _ & H).
  apply bind_result_inv in H. destruct H as (sb & _ & H).
  apply bind_result_inv in H. destruct H as (base & _ & H).
  apply bind_result_inv in H. destruct H as (dk & Hdk & H).
  inversion H; subst. exact (Hattr _ _ _ _ _ _ _ Hdk).
Qed.

(** A missing salt stops [keyFromPassword] at the conversion of the
    salt to bytes, before the platform's key operations. *)
Lemma keyFromPassword_undefined_salt (password : jsstring) (exportable : bool) :
  keyFromPassword P password undefined exportable = Err TypeError.
Proof. reflexivity. Qed.

(** Decrypting the object that [encrypt] serialised, with a key that
    decrypts the ciphertext. *)
Lemma decryptWithKey_vault_object (key : CryptoKey) (dataObj dataObj' : json)
      (vector ct : bytes) (salt : jsstring) :
  base64_roundtrip P ->
  utf8_roundtrip_on_json P ->
  JSON_parse P (JSON_stringify P dataObj) = Some dataObj' ->
  subtle_decrypt P (AlgAesGcm DERIVED_KEY_FORMAT vector) key ct
  = Ok (Buffer_from_string P (JSON_stringify P dataObj) STRING_ENCODING) ->
  decryptWithKey P key
    (vault_object (Buffer_toString P ct (js "base64"))
                  (Buffer_toString P vector (js "base64")) salt)
  = Ok dataObj'.
Proof.
  intros B64 Utf8 Hjson Hdec.
  pose proof (get_prop_vault_object (Buffer_toString P ct (js "base64"))
                (Buffer_toString P vector (js "base64")) salt)
    as (Hd & Hi & _).
  eapply decryptWithKey_ok.
  - exact Hd.
  - cbn [Buffer_from]. now rewrite B64.
  - exact Hi.
  - cbn [Buffer_from]. now rewrite B64.
  - exact Hdec.
  - now rewrite Utf8.
Qed.

(** *** Encryption succeeds *)

Lemma keyFromPassword_succeeds (password salt : jsstring) (exportable : bool) :
  password_key_derivable P ->
  exists k, keyFromPassword P password (Some (JStr salt)) exportable = Ok k.
Proof.
  intros Hd. unfold keyFromPassword. cbn [Buffer_from bind result_monad].
  destruct (Hd (Buffer_from_string P password STRING_ENCODING)
               (Buffer_from_string P salt (js "base64")) exportable)
    as (base & k & Hbase & Hk).
  rewrite Hbase, Hk. eauto.
Qed.

(** With a platform that does not fail, [encrypt] returns a vault for
    every password and payload, with a given salt or a drawn one. *)
Lemma encrypt_returns_vault (password : jsstring) (dataObj : json)
      (salt : option jsstring) (w : world P) :
  random_values_available P ->
  btoa_encodes_bytes P ->
  password_key_derivable P ->
  derived_key_attributes P ->
  aes_gcm_encrypts P ->
  exists vault w', encrypt P password dataObj None salt w = (Ok vault, w').
Proof.
  intros Hrnd Hbtoa Hder Hattr Henc.
  assert (Hs : exists s w1,
             match salt with
             | Some s0 => ret s0
             | None => generateSalt P 32
             end w = (Ok s, w1)).
  { destruct salt as [s0|]; [exists s0, w; reflexivity|].
    unfold generateSalt. cbn [bind M_monad].
    destruct (Hrnd 32 w) as (view & w1 & Hv); [lia|]. rewrite Hv.
    destruct (Hbtoa view) as (s & Hb). unfold lift. rewrite Hb.
    exists s, w1. reflexivity. }
  destruct Hs as (s & w1 & Hs).
  destruct (keyFromPassword_succeeds password s false Hder) as (k & Hk).
  destruct (keyFromPassword_attributes _ _ _ _ Hattr Hk) as (Halg & _ & Hus).
  destruct (Hrnd 16 w1) as (vector & w2 & Hv); [lia|].
  destruct (Henc vector k
              (Buffer_from_string P (JSON_stringify P dataObj) STRING_ENCODING)
              Halg) as (ct & Hct).
  { rewrite Hus. left; reflexivity. }
  unfold encrypt, encryptWithKey. cbn [bind M_monad].
  rewrite Hs. unfold lift. rewrite Hk, Hv, Hct. cbn [ret M_monad]. eauto.
Qed.

(** *** Round trip *)

(** C1. For every payload and password, [decrypt] applied with the same
    password to a vault that [encrypt] returned succeeds and returns the
    payload as it is after a [JSON.stringify]/[JSON.parse] round trip,
    whatever salt (given or drawn) and vector were used. *)
Theorem decrypt_encrypt_roundtrip :
  base64_roundtrip P ->
  utf8_roundtrip_on_json P ->
  json_roundtrip_on_vaults P ->
  aes_gcm_decrypts_own P ->
  derived_key_attributes P ->
  forall (password : jsstring) (dataObj dataObj' : json)
         (salt : option jsstring) (w w' : world P) (vault : jsstring),
    JSON_parse P (JSON_stringify P dataObj) = Some dataObj' ->
    encrypt P password dataObj None salt w = (Ok vault, w') ->
    decrypt P password vault None = Ok dataObj'.
Proof.
  intros B64 Utf8 Jv Aes Attr password dataObj dataObj' salt w w' vault Hjson Henc.
  apply encrypt_inv in Henc.
  destruct Henc as (s & w1 & k & vector & ct & _ & Hk & _ & Hct & ->).
  destruct (keyFromPassword_attributes _ _ _ _ Attr Hk) as (_ & _ & Hus).
  rewrite (decrypt_steps password _ (vault_object _ _ s) (Some (JStr s))
             (Jv _ _ _) eq_refl).
  rewrite Hk. cbn [bind result_monad].
  apply (decryptWithKey_vault_object _ dataObj); auto.
  apply Aes; [|exact Hct]. rewrite Hus. right; left; reflexivity.
Qed.

(** *** Failures of [decryptWithKey] *)

(** The password enters [keyFromPassword] through its UTF-8 bytes only. *)
Lemma keyFromPassword_same_bytes (password1 password2 : jsstring)
      (salt : jsvalue) (exportable : bool) :
  Buffer_from_string P password1 STRING_ENCODING
  = Buffer_from_string P password2 STRING_ENCODING ->
  keyFromPassword P password1 salt exportable
  = keyFromPassword P password2 salt exportable.
Proof.
  intros H. unfold keyFromPassword. cbn [Buffer_from bind result_monad].
  now rewrite H.
Qed.

(** C2 (amended). Whenever the AES-GCM decryption step fails,
    [decryptWithKey] fails with [Error("Incorrect password")] and
    returns nothing, and so does [decrypt] with a password whose derived
    key fails on the ciphertext of the vault.  A different password
    alone does not make it fail: the password counts through its UTF-8
    bytes only, and two passwords with the same bytes decrypt every
    text alike. *)
Theorem decryption_failure_is_incorrect_password :
  (forall (key : CryptoKey) (payload : json) (data iv : jsvalue)
          (encryptedData vector : bytes) (e : exn),
      get_prop payload (js "data") = Ok data ->
      Buffer_from P data (js "base64") = Ok encryptedData ->
      get_prop payload (js "iv") = Ok iv ->
      Buffer_from P iv (js "base64") = Ok vector ->
      subtle_decrypt P (AlgAesGcm DERIVED_KEY_FORMAT vector) key encryptedData
      = Err e ->
      decryptWithKey P key payload = Err (Error (js "Incorrect password")))
  /\
  (forall (password text : jsstring) (payload : json) (salt data iv : jsvalue)
          (key : CryptoKey) (encryptedData vector : bytes) (e : exn),
      JSON_parse P text = Some payload ->
      get_prop payload (js "salt") = Ok salt ->
      keyFromPassword P password salt false = Ok key ->
      get_prop payload (js "data") = Ok data ->
      Buffer_from P data (js "base64") = Ok encryptedData ->
      get_prop payload (js "iv") = Ok iv ->
      Buffer_from P iv (js "base64") = Ok vector ->
      subtle_decrypt P (AlgAesGcm DERIVED_KEY_FORMAT vector) key encryptedData
      = Err e ->
      decrypt P password text None = Err (Error (js "Incorrect password")))
  /\
  (forall (password1 password2 text : jsstring) (key : option CryptoKey),
      Buffer_from_string P password1 STRING_ENCODING
      = Buffer_from_string P password2 STRING_ENCODING ->
      decrypt P password1 text key = decrypt P password2 text key).
Proof.
  split; [|split].
  - intros key payload data iv ed vec e Hd He Hi Hv Hdec.
    exact (decryptWithKey_rejected key payload _ _ _ _ e Hd He Hi Hv Hdec).
  - intros password text payload salt data iv key ed vec e
           Hp Hs Hk Hd He Hi Hv Hdec.
    rewrite (decrypt_steps password text payload salt Hp Hs), Hk.
    cbn [bind result_monad].
    exact (decryptWithKey_rejected key payload _ _ _ _ e Hd He Hi Hv Hdec).
  - intros password1 password2 text key Hbytes. unfold decrypt.
    destruct (JSON_parse_or_throw P text) as [payload|e];
      cbn [bind result_monad]; [|reflexivity].
    destruct (get_prop payload (js "salt")) as [salt|e];
      cbn [bind result_monad]; [|reflexivity].
    destruct key as [k|]; [reflexivity|].
    now rewrite (keyFromPassword_same_bytes password1 password2 salt false Hbytes).
Qed.

(** C6 (amended). When the AES-GCM decryption step succeeds but the
    decoded plaintext is not JSON, [decryptWithKey] fails with the same
    [Error("Incorrect password")] as for a failed decryption: the
    [SyntaxError] of [JSON.parse] is caught by the same handler. *)
Theorem parse_failure_is_incorrect_password :
  forall (key : CryptoKey) (payload : json) (data iv : jsvalue)
         (encryptedData vector pt : bytes),
    get_prop payload (js "data") = Ok data ->
    Buffer_from P data (js "base64") = Ok encryptedData ->
    get_prop payload (js "iv") = Ok iv ->
    Buffer_from P iv (js "base64") = Ok vector ->
    subtle_decrypt P (AlgAesGcm DERIVED_KEY_FORMAT vector) key encryptedData
    = Ok pt ->
    JSON_parse P (Buffer_toString P pt STRING_ENCODING) = None ->
    decryptWithKey P key payload = Err (Error (js "Incorrect password")).
Proof.
  intros key payload data iv ed vec pt Hd He Hi Hv Hdec Hparse.
  exact (decryptWithKey_not_json key payload _ _ _ _ pt Hd He Hi Hv Hdec Hparse).
Qed.

(** *** The exported key *)

Lemma exportKey_inv (key : CryptoKey) (keyString : jsstring) :
  exportKey P key = Ok keyString ->
  exists jwk, subtle_exportKey P EXPORT_FORMAT key = Ok jwk
              /\ keyString = JSON_stringify P jwk.
Proof.
  unfold exportKey. intros H.
  apply bind_result_inv in H. destruct H as (jwk & Hj & H).
  inversion H. exists jwk. auto.
Qed.

(** C3. The key string that [encryptWithDetail] returns imports to a
    key with which [decryptWithKey] recovers the payload from the parsed
    vault; neither [importKey] nor [decryptWithKey] takes the password. *)
Theorem encryptWithDetail_key_reuse :
  base64_roundtrip P ->
  utf8_roundtrip_on_json P ->
  json_roundtrip_on_vaults P ->
  json_roundtrip_on_jwk P ->
  aes_gcm_decrypts_own P ->
  derived_key_attributes P ->
  jwk_import_of_export P ->
  forall (password : jsstring) (dataObj dataObj' : json)
         (salt : option jsstring) (w w' : world P)
         (r : DetailedEncryptionResult),
    JSON_parse P (JSON_stringify P dataObj) = Some dataObj' ->
    encryptWithDetail P password dataObj salt w = (Ok r, w') ->
    exists (key : CryptoKey) (payload : json),
      importKey P (der_exportedKeyString r) = Ok key
      /\ JSON_parse P (der_vault r) = Some payload
      /\ decryptWithKey P key payload = Ok dataObj'.
Proof.
  intros B64 Utf8 Jv Jk Aes Attr Imp
         password dataObj dataObj' salt w w' r Hjson H.
  unfold encryptWithDetail in H.
  apply bind_M_inv in H. destruct H as (s & w1 & _ & H).
  apply bind_M_inv in H. destruct H as (key0 & w2 & Hk & H).
  apply lift_inv in Hk. destruct Hk as [Hk ->].
  apply bind_M_inv in H. destruct H as (eks & w3 & He & H).
  apply lift_inv in He. destruct He as [He ->].
  apply bind_M_inv in H. destruct H as (vault & w4 & Henc & H).
  apply ret_M_inv in H. destruct H as [-> ->]. cbn [der_vault der_exportedKeyString].
  destruct (keyFromPassword_attributes _ _ _ _ Attr Hk) as (Halg & _ & Hus).
  apply exportKey_inv in He. destruct He as (jwk & Hexp & ->).
  destruct (Imp key0 jwk Halg Hus Hexp) as (k' & Hk' & Hsame).
  apply encrypt_inv in Henc.
  destruct Henc as (s' & w1' & k & vector & ct & [-> _] & -> & _ & Hct & ->).
  exists k', (vault_object (Buffer_toString P ct (js "base64"))
                           (Buffer_toString P vector (js "base64")) s).
  split; [|split].
  - unfold importKey, JSON_parse_or_throw. rewrite (Jk _ _ Hexp).
    cbn [bind result_monad]. now rewrite Hk'.
  - apply Jv.
  - apply (decryptWithKey_vault_object _ dataObj); auto.
    rewrite Hsame. apply Aes; [|exact Hct].
    rewrite Hus. right; left; reflexivity.
Qed.

(** C10. A key that [importKey] returns can be exported: [importKey]
    asks the platform for an extractable key, and [exportKey] succeeds
    on such a key. *)
Theorem imported_key_is_exportable :
  imported_key_attributes P ->
  extractable_key_exports P ->
  forall (keyString : jsstring) (key : CryptoKey),
    importKey P keyString = Ok key ->
    exists keyString', exportKey P key = Ok keyString'.
Proof.
  intros Attr Exp keyString key H. unfold importKey in H.
  apply bind_result_inv in H. destruct H as (jwk & _ & H).
  apply bind_result_inv in H. destruct H as (k & Hk & H).
  inversion H; subst k.
  destruct (Attr _ _ _ _ _ _ Hk) as (Halg & Hext & _).
  destruct (Exp key Hext Halg) as (jwk' & Hj).
  exists (JSON_stringify P jwk'). unfold exportKey. now rewrite Hj.
Qed.

(** *** The salt field *)

(** C4. A vault that [encrypt] returns without a caller's key parses to
    an object whose [salt] is the salt argument, or the salt that
    [generateSalt] drew when there was none; the object that
    [encryptWithKey] returns has the properties [data] and [iv] only. *)
Theorem salt_field_of_vault :
  json_roundtrip_on_vaults P ->
  (forall (password : jsstring) (dataObj : json) (salt : option jsstring)
          (w w' : world P) (vault : jsstring),
      encrypt P password dataObj None salt w = (Ok vault, w') ->
      exists (fields : list (jsstring * json)) (s : jsstring),
        JSON_parse P vault = Some (JObj fields)
        /\ lookup (js "salt") fields = Some (JStr s)
        /\ match salt with
           | Some s0 => s = s0
           | None => exists w1, generateSalt P 32 w = (Ok s, w1)
           end)
  /\
  (forall (key : CryptoKey) (dataObj : json) (w w' : world P)
          (payload : list (jsstring * json)),
      encryptWithKey P key dataObj w = (Ok payload, w') ->
      lookup (js "salt") payload = undefined
      /\ map fst payload = [js "data"; js "iv"]).
Proof.
  intros Jv. split.
  - intros password dataObj salt w w' vault Henc.
    apply encrypt_inv in Henc.
    destruct Henc as (s & w1 & k & vector & ct & Hs & _ & _ & _ & ->).
    eexists _, s. split; [apply Jv|]. split; [reflexivity|].
    destruct salt as [s0|]; [tauto | eauto].
  - intros key dataObj w w' payload Henc.
    apply encryptWithKey_inv in Henc.
    destruct Henc as (vector & ct & _ & _ & ->). split; reflexivity.
Qed.

(** C5 (amended). On a vault whose parsed object has no [salt],
    [decrypt] without a key fails with the [TypeError] that
    [keyFromPassword] gets from converting the missing salt to bytes;
    [decrypt] itself tests nothing, and no key is imported or derived
    and nothing is decrypted. *)
Theorem decrypt_without_salt :
  forall (password text : jsstring) (fields : list (jsstring * json)),
    JSON_parse P text = Some (JObj fields) ->
    lookup (js "salt") fields = undefined ->
    decrypt P password text None
    = (cryptoKey <- keyFromPassword P password undefined false ;;
       decryptWithKey P cryptoKey (JObj fields))
    /\ keyFromPassword P password undefined false = Err TypeError
    /\ decrypt P password text None = Err TypeError.
Proof.
  intros password text fields Hp Hs.
  assert (H : decrypt P password text None
              = (cryptoKey <- keyFromPassword P password undefined false ;;
                 decryptWithKey P cryptoKey (JObj fields))).
  { apply decrypt_steps; [exact Hp|]. cbn [get_prop]. now rewrite Hs. }
  split; [exact H|]. split; [apply keyFromPassword_undefined_salt|].
  rewrite H, keyFromPassword_undefined_salt. reflexivity.
Qed.

(** *** The password when a key is given *)

(** C9. With a key, [encrypt] does not look at the password: two calls
    that differ in the password only, started from the same state of
    the random source, return the same vault. *)
Theorem encrypt_with_key_ignores_password :
  forall (password1 password2 : jsstring) (dataObj : json) (key : CryptoKey)
         (salt : option jsstring) (w : world P),
    encrypt P password1 dataObj (Some key) salt w
    = encrypt P password2 dataObj (Some key) salt w.
Proof.
  intros password1 password2 dataObj key salt w.
  unfold encrypt. cbn [bind M_monad].
  destruct salt as [s|]; [reflexivity|].
  destruct (generateSalt P 32 w) as [[s|e] w1]; reflexivity.
Qed.

End CodecFacts.

(** ** The small platform meets the laws *)

Lemma toy_byte_of_N_to_N (b : byte) : Toy.byte_of_N (Byte.to_N b) = b.
Proof. destruct b; reflexivity. Qed.

Lemma toy_bytes_of_units (b : bytes) :
  map Toy.byte_of_N (map Byte.to_N b) = b.
Proof.
  induction b as [|x b IH]; cbn [map]; [reflexivity|].
  now rewrite toy_byte_of_N_to_N, IH.
Qed.

Lemma toy_base64_roundtrip : base64_roundtrip Toy.platform.
Proof. intros b. apply toy_bytes_of_units. Qed.

Lemma toy_unary_decode_run (n : nat) :
  forall (acc : N) (rest : bytes),
    Toy.unary_decode acc (repeat x01 n ++ x00 :: rest)
    = (acc + N.of_nat n)%N :: Toy.unary_decode 0 rest.
Proof.
  induction n as [|n IH]; intros acc rest.
  - cbn. now rewrite N.add_0_r.
  - cbn [repeat app Toy.unary_decode]. rewrite IH. f_equal. lia.
Qed.

Lemma toy_unary_roundtrip (s : jsstring) :
  Toy.unary_decode 0 (Toy.unary_encode s) = s.
Proof.
  induction s as [|c s IH]; [reflexivity|].
  unfold Toy.unary_encode in *. cbn [flat_map].
  rewrite <- !app_assoc. cbn [app].
  rewrite toy_unary_decode_run, IH, N2Nat.id. reflexivity.
Qed.

Lemma toy_utf8_roundtrip_on_json : utf8_roundtrip_on_json Toy.platform.
Proof. intros v. apply toy_unary_roundtrip. Qed.

Lemma toy_decode_encode_record (l : list (jsstring * jsstring)) :
  forall fuel, length l < fuel ->
    Toy.decode_fields fuel (Toy.encode_fields (Toy.record l))
    = Some (Toy.record l).
Proof.
  induction l as [|[k v] l IH]; intros [|fuel] Hf; cbn [length] in Hf; try lia.
  - reflexivity.
  - cbn [Toy.record map fst snd Toy.encode_fields Toy.decode_fields].
    fold (Toy.record l). rewrite !Nat2N.id.
    set (enc := Toy.encode_fields (Toy.record l)) in *.
    rewrite firstn_app, firstn_all, Nat.sub_diag, app_nil_r.
    rewrite skipn_app, skipn_all, Nat.sub_diag. cbn [app skipn].
    rewrite Nat2N.id.
    rewrite firstn_app, firstn_all, Nat.sub_diag, app_nil_r.
    rewrite skipn_app, skipn_all, Nat.sub_diag. cbn [app skipn].
    rewrite IH by lia.
    rewrite !length_app. cbn [length]. rewrite length_app.
    unfold code_unit in *.
    rewrite (proj2 (Nat.ltb_ge _ _)) by lia.
    rewrite (proj2 (Nat.ltb_ge _ _)) by lia.
    reflexivity.
Qed.

Lemma toy_length_encode_record (l : list (jsstring * jsstring)) :
  length l <= length (Toy.encode_fields (Toy.record l)).
Proof.
  induction l as [|[k v] l IH]; [apply Nat.le_refl|].
  cbn [Toy.record map fst snd Toy.encode_fields length]. fold (Toy.record l).
  rewrite !length_app. cbn [length]. unfold code_unit in *. lia.
Qed.

Lemma toy_parse_stringify_record (l : list (jsstring * jsstring)) :
  Toy.parse (Toy.stringify (JObj (Toy.record l))) = Some (JObj (Toy.record l)).
Proof.
  unfold Toy.parse, Toy.stringify.
  rewrite toy_decode_encode_record; [reflexivity|].
  pose proof (toy_length_encode_record l). lia.
Qed.

Lemma toy_json_roundtrip_on_vaults : json_roundtrip_on_vaults Toy.platform.
Proof.
  intros data iv salt.
  exact (toy_parse_stringify_record [(js "data", data); (js "iv", iv); (js "salt", salt)]).
Qed.

Lemma toy_json_roundtrip_on_jwk : json_roundtrip_on_jwk Toy.platform.
Proof.
  intros k jwk H. cbn in H. unfold Toy.export_key in H.
  destruct (key_extractable k); inversion H.
  exact (toy_parse_stringify_record [(js "k", map Byte.to_N (key_handle k))]).
Qed.

Lemma toy_bytes_prefix_app (p l : bytes) : Toy.bytes_prefix p (p ++ l) = true.
Proof.
  induction p as [|x p IH]; [reflexivity|].
  cbn [app Toy.bytes_prefix]. rewrite IH, andb_true_r.
  now apply Byte.byte_dec_lb.
Qed.

Lemma toy_aes_decrypt_encrypt (alg : algorithm) (k : CryptoKey) (pt ct : bytes) :
  Toy.aes_encrypt alg k pt = Ok ct -> Toy.aes_decrypt alg k ct = Ok pt.
Proof.
  destruct alg as [| | |name iv]; try discriminate.
  cbn [Toy.aes_encrypt Toy.aes_decrypt]. intros H. inversion H; subst ct.
  rewrite toy_bytes_prefix_app, skipn_app, skipn_all, Nat.sub_diag.
  reflexivity.
Qed.

Lemma toy_aes_gcm_decrypts_own : aes_gcm_decrypts_own Toy.platform.
Proof. intros alg k pt ct _. apply toy_aes_decrypt_encrypt. Qed.

Lemma toy_derived_key_attributes : derived_key_attributes Toy.platform.
Proof.
  intros a base name len ext us k H. cbn in H. unfold Toy.derive_key in H.
  destruct a; try discriminate. inversion H. auto.
Qed.

Lemma toy_imported_key_attributes : imported_key_attributes Toy.platform.
Proof.
  intros fmt d name ext us k H. cbn in H. unfold Toy.import_key in H.
  destruct d as [b|jwk].
  - inversion H. auto.
  - destruct jwk as [| | | | |fields]; try discriminate.
    destruct fields as [|[f v] fields]; try discriminate.
    destruct v; try discriminate.
    destruct fields; try discriminate. inversion H. auto.
Qed.

Lemma toy_extractable_key_exports : extractable_key_exports Toy.platform.
Proof.
  intros k Hext _. cbn. unfold Toy.export_key. rewrite Hext. eauto.
Qed.

Lemma toy_never_fails :
  random_values_available Toy.platform
  /\ btoa_encodes_bytes Toy.platform
  /\ password_key_derivable Toy.platform
  /\ aes_gcm_encrypts Toy.platform.
Proof.
  split; [|split; [|split]].
  - intros n w _. cbn. unfold Toy.random_values. eauto.
  - intros view. cbn. eauto.
  - intros pb sb ext. cbn. eauto.
  - intros iv k pt _ _. cbn. eauto.
Qed.

Lemma toy_jwk_import_of_export : jwk_import_of_export Toy.platform.
Proof.
  intros k jwk _ _ H. cbn in H. unfold Toy.export_key in H.
  destruct (key_extractable k); inversion H.
  eexists. split; [reflexivity|].
  intros alg ct. cbn. unfold Toy.aes_decrypt. cbn [key_handle].
  now rewrite toy_bytes_of_units.
Qed.

(** ** The claims on the small platform *)

Lemma decrypt_encrypt_roundtrip_witness :
  encrypt Toy.platform (js "pw") Toy.sample_payload None None 0
  = (Ok Toy.sample_vault_drawn_salt, 48)
  /\ decrypt Toy.platform (js "pw") Toy.sample_vault_drawn_salt None
     = Ok Toy.sample_payload.
Proof.
  split; [vm_compute; reflexivity|].
  apply (decrypt_encrypt_roundtrip Toy.platform
           toy_base64_roundtrip toy_utf8_roundtrip_on_json
           toy_json_roundtrip_on_vaults toy_aes_gcm_decrypts_own
           toy_derived_key_attributes
           (js "pw") Toy.sample_payload Toy.sample_payload None 0 48
           Toy.sample_vault_drawn_salt);
    vm_compute; reflexivity.
Defined.

Lemma decryption_failure_is_incorrect_password_witness :
  decryptWithKey Toy.platform Toy.other_key Toy.not_json_payload
  = Err (Error (js "Incorrect password"))
  /\ decrypt Toy.platform (js "no") Toy.sample_vault None
     = Err (Error (js "Incorrect password"))
  /\ decrypt Lossy.platform Lossy.password1 Lossy.vault None
     = decrypt Lossy.platform Lossy.password2 Lossy.vault None.
Proof.
  destruct (decryption_failure_is_incorrect_password Toy.platform)
    as (H1 & H2 & _).
  destruct (decryption_failure_is_incorrect_password Lossy.platform)
    as (_ & _ & H3).
  split; [|split].
  - apply (H1 Toy.other_key Toy.not_json_payload
             (Some (JStr [107; 49; 1; 1; 1; 1; 1; 0]%N)) (Some (JStr (js "1")))
             [x6b; x31; x01; x01; x01; x01; x01; x00] [x31]
             (DOMException (js "OperationError")));
      vm_compute; reflexivity.
  - eapply (H2 (js "no") Toy.sample_vault); reflexivity.
  - apply (H3 Lossy.password1 Lossy.password2 Lossy.vault None).
    reflexivity.
Defined.

(** C2, as stated, fails: two different passwords, ending in two
    different unpaired surrogates, have the same UTF-8 bytes; the vault
    made with one is opened with the other. *)
Lemma different_password_opens_vault :
  Lossy.password1 <> Lossy.password2
  /\ encrypt Lossy.platform Lossy.password1 Toy.sample_payload None
       (Some Toy.sample_salt) 0 = (Ok Lossy.vault, 16)
  /\ decrypt Lossy.platform Lossy.password2 Lossy.vault None
     = Ok Toy.sample_payload.
Proof.
  split; [discriminate|]. split; vm_compute; reflexivity.
Qed.

Lemma encryptWithDetail_key_reuse_witness :
  encryptWithDetail Toy.platform (js "pw") Toy.sample_payload
    (Some Toy.sample_salt) 0 = (Ok Toy.sample_detail, 16)
  /\ exists (key : CryptoKey) (payload : json),
       importKey Toy.platform (der_exportedKeyString Toy.sample_detail) = Ok key
       /\ JSON_parse Toy.platform (der_vault Toy.sample_detail) = Some payload
       /\ decryptWithKey Toy.platform key payload = Ok Toy.sample_payload.
Proof.
  split; [vm_compute; reflexivity|].
  apply (encryptWithDetail_key_reuse Toy.platform
           toy_base64_roundtrip toy_utf8_roundtrip_on_json
           toy_json_roundtrip_on_vaults toy_json_roundtrip_on_jwk
           toy_aes_gcm_decrypts_own toy_derived_key_attributes
           toy_jwk_import_of_export
           (js "pw") Toy.sample_payload Toy.sample_payload
           (Some Toy.sample_salt) 0 16 Toy.sample_detail);
    vm_compute; reflexivity.
Defined.

Lemma imported_key_is_exportable_witness :
  exists keyString',
    exportKey Toy.platform
      {| key_algorithm := DERIVED_KEY_FORMAT; key_extractable := true;
         key_usages := [js "encrypt"; js "decrypt"]; key_handle := [x6b] |}
    = Ok keyString'.
Proof.
  apply (imported_key_is_exportable Toy.platform
           toy_imported_key_attributes toy_extractable_key_exports
           (Toy.stringify (JObj [(js "k", JStr (js "k"))]))).
  vm_compute. reflexivity.
Defined.

Lemma salt_field_of_vault_witness :
  (exists (fields : list (jsstring * json)) (s : jsstring),
      JSON_parse Toy.platform Toy.sample_vault = Some (JObj fields)
      /\ lookup (js "salt") fields = Some (JStr s)
      /\ s = Toy.sample_salt)
  /\ (lookup (js "salt") Toy.sample_encryption = undefined
      /\ map fst Toy.sample_encryption = [js "data"; js "iv"]).
Proof.
  destruct (salt_field_of_vault Toy.platform toy_json_roundtrip_on_vaults)
    as [H1 H2].
  split.
  - apply (H1 (js "pw") Toy.sample_payload (Some Toy.sample_salt) 0 16
              Toy.sample_vault).
    vm_compute. reflexivity.
  - apply (H2 Toy.sample_key Toy.sample_payload 0 16).
    vm_compute. reflexivity.
Defined.

(** C5, as stated, fails: on a vault without salt [decrypt] fails with
    the [TypeError] of [keyFromPassword], which the module did not
    build; there is no error of its own for this vault. *)
Lemma decrypt_without_salt_is_key_derivation_error :
  JSON_parse Toy.platform Toy.saltless_vault = Some (JObj Toy.saltless_fields)
  /\ lookup (js "salt") Toy.saltless_fields = undefined
  /\ decrypt Toy.platform (js "pw") Toy.saltless_vault None = Err TypeError
  /\ keyFromPassword Toy.platform (js "pw") undefined false = Err TypeError
  /\ built_by_module TypeError = false.
Proof. vm_compute. repeat split. Qed.

Lemma decrypt_without_salt_witness :
  decrypt Toy.platform (js "pw") Toy.saltless_vault None
  = (cryptoKey <- keyFromPassword Toy.platform (js "pw") undefined false ;;
     decryptWithKey Toy.platform cryptoKey (JObj Toy.saltless_fields))
  /\ keyFromPassword Toy.platform (js "pw") undefined false = Err TypeError
  /\ decrypt Toy.platform (js "pw") Toy.saltless_vault None = Err TypeError.
Proof.
  apply (decrypt_without_salt Toy.platform (js "pw") Toy.saltless_vault
           Toy.saltless_fields); vm_compute; reflexivity.
Defined.

(** C6, as stated, fails: the decryption step succeeds, the plaintext
    is not JSON, and the error is the one for an incorrect password. *)
Lemma parse_failure_is_not_distinct :
  subtle_decrypt Toy.platform (AlgAesGcm DERIVED_KEY_FORMAT [x31])
    Toy.sample_key [x6b; x31; x01; x01; x01; x01; x01; x00]
  = Ok [x01; x01; x01; x01; x01; x00]
  /\ JSON_parse Toy.platform
       (Buffer_toString Toy.platform [x01; x01; x01; x01; x01; x00]
          STRING_ENCODING) = None
  /\ decryptWithKey Toy.platform Toy.sample_key Toy.not_json_payload
     = Err (Error (js "Incorrect password")).
Proof. vm_compute. repeat split. Qed.

Lemma parse_failure_is_incorrect_password_witness :
  decryptWithKey Toy.platform Toy.sample_key Toy.not_json_payload
  = Err (Error (js "Incorrect password")).
Proof.
  apply (parse_failure_is_incorrect_password Toy.platform
           Toy.sample_key Toy.not_json_payload
           (Some (JStr [107; 49; 1; 1; 1; 1; 1; 0]%N)) (Some (JStr (js "1")))
           [x6b; x31; x01; x01; x01; x01; x01; x00] [x31]
           [x01; x01; x01; x01; x01; x00]);
    vm_compute; reflexivity.
Defined.

(* ================================================================= *)
(** * Part III: further properties of the code *)
(* ================================================================= *)

(** ** The hex decoder, pair by pair *)

Lemma pair_induction (Q : jsstring -> Prop) :
  Q [] ->
  (forall c, Q [c]) ->
  (forall c1 c2 rest, Q rest -> Q (c1 :: c2 :: rest)) ->
  forall s, Q s.
Proof.
  intros H0 H1 H2 s.
  assert (H : Q s /\ forall c, Q (c :: s)).
  { induction s as [|x s [IH1 IH2]]; split; auto. }
  exact (proj1 H).
Qed.

Lemma half_length_cons2 (c1 c2 : code_unit) (rest : jsstring) :
  length (c1 :: c2 :: rest) / 2 = S (length rest / 2).
Proof.
  cbn [length]. replace (S (S (length rest))) with (length rest + 1 * 2) by lia.
  rewrite Nat.div_add by lia. lia.
Qed.

Lemma length_decode_pairs (s : jsstring) :
  length (decode_pairs s) = length s / 2.
Proof.
  induction s as [| c | c1 c2 rest IH] using pair_induction; try reflexivity.
  rewrite half_length_cons2. cbn [decode_pairs length]. now rewrite IH.
Qed.

Lemma nth_error_decode_pairs (s : jsstring) :
  forall j, j < length s / 2 ->
    nth_error (decode_pairs s) j
    = Some (ToUint8 (parseInt (substr s (2 * j) 2) 16)).
Proof.
  induction s as [| c | c1 c2 rest IH] using pair_induction; intros j Hj.
  - cbn in Hj. lia.
  - cbn in Hj. lia.
  - rewrite half_length_cons2 in Hj. destruct j as [|j].
    + reflexivity.
    + cbn [decode_pairs nth_error]. rewrite IH by lia.
      replace (2 * S j) with (S (S (2 * j))) by lia. reflexivity.
Qed.

(** The loop and the recursion decode alike. *)
Lemma serializeBufferFromStorage_pairs (str : jsstring) :
  serializeBufferFromStorage str = decode_pairs (strip_0x str).
Proof.
  destruct (serializeBufferFromStorage_spec str) as [HL HN].
  apply nth_error_ext. intros j.
  destruct (Nat.lt_ge_cases j (length (strip_0x str) / 2)) as [Hj|Hj].
  - now rewrite (HN j Hj), nth_error_decode_pairs.
  - transitivity (@None byte); [|symmetry]; apply nth_error_None;
      rewrite ?length_decode_pairs; lia.
Qed.

Lemma decode_pairs_two_hex_digits (buffer : bytes) :
  decode_pairs (flat_map two_hex_digits buffer) = buffer.
Proof.
  induction buffer as [|b buffer IH]; [reflexivity|].
  cbn [flat_map two_hex_digits app decode_pairs]. rewrite IH.
  f_equal. apply parse_two_hex_digits.
Qed.

Lemma from_for_storage (buffer : bytes) :
  serializeBufferFromStorage (serializeBufferForStorage buffer) = buffer.
Proof.
  rewrite serializeBufferFromStorage_pairs, serializeBufferForStorage_format,
    strip_0x_hex_storage_format.
  apply decode_pairs_two_hex_digits.
Qed.

(** X1. The string written for a buffer of [n] bytes has [2 + 2 * n]
    characters, and two different buffers are never written as the same
    string. *)
Theorem serializeBufferForStorage_injective :
  (forall buffer : bytes,
      length (serializeBufferForStorage buffer) = 2 + 2 * length buffer)
  /\ (forall a b : bytes,
         serializeBufferForStorage a = serializeBufferForStorage b -> a = b).
Proof.
  split.
  - intros buffer. rewrite serializeBufferForStorage_format.
    unfold hex_storage_format. rewrite length_app, length_flat_map_two_hex_digits.
    reflexivity.
  - intros a b H.
    rewrite <- (from_for_storage a), <- (from_for_storage b). now rewrite H.
Qed.

Lemma serializeBufferForStorage_injective_witness :
  length (serializeBufferForStorage [x01; xff]) = 2 + 2 * 2
  /\ serializeBufferFromStorage (js "0x01ff") = [x01; xff].
Proof.
  split.
  - exact (proj1 serializeBufferForStorage_injective [x01; xff]).
  - apply (proj2 serializeBufferForStorage_injective
             (serializeBufferFromStorage (js "0x01ff")) [x01; xff]).
    reflexivity.
Defined.

(** ** Digits *)

Lemma digit_value_16_cases (c : code_unit) (d : N) :
  digit_value 16 c = Some d -> In (c, d) hex_table.
Proof.
  unfold digit_value.
  destruct ((48 <=? c) && (c <=? 57))%N eqn:E1;
    [|destruct ((97 <=? c) && (c <=? 122))%N eqn:E2;
      [|destruct ((65 <=? c) && (c <=? 90))%N eqn:E3; [|discriminate]]].
  - apply andb_prop in E1. destruct E1 as [L U].
    apply N.leb_le in L, U.
    destruct (c - 48 <? 16)%N; [|discriminate]. intros H; inversion H; subst d.
    assert (Hc : exists n, n < 10 /\ c = (48 + N.of_nat n)%N).
    { exists (N.to_nat (c - 48)). split; lia. }
    destruct Hc as (n & Hn & ->).
    do 10 (destruct n as [|n]; [vm_compute; tauto|]). lia.
  - apply andb_prop in E2. destruct E2 as [L U].
    apply N.leb_le in L, U.
    destruct (N.ltb_spec (c - 87) 16); [|discriminate].
    intros H'; inversion H'; subst d.
    assert (Hc : exists n, n < 6 /\ c = (97 + N.of_nat n)%N).
    { exists (N.to_nat (c - 97)). split; lia. }
    destruct Hc as (n & Hn & ->).
    do 6 (destruct n as [|n]; [vm_compute; tauto|]). lia.
  - apply andb_prop in E3. destruct E3 as [L U].
    apply N.leb_le in L, U.
    destruct (N.ltb_spec (c - 55) 16); [|discriminate].
    intros H'; inversion H'; subst d.
    assert (Hc : exists n, n < 6 /\ c = (65 + N.of_nat n)%N).
    { exists (N.to_nat (c - 65)). split; lia. }
    destruct Hc as (n & Hn & ->).
    do 6 (destruct n as [|n]; [vm_compute; tauto|]). lia.
Qed.

Lemma is_lower_hex_cases (c : code_unit) :
  is_lower_hex c = true -> exists d, In (c, d) lower_hex_table.
Proof.
  unfold is_lower_hex. intros H. apply orb_prop in H.
  destruct H as [H|H]; apply andb_prop in H; destruct H as [L U];
    apply N.leb_le in L, U.
  - assert (Hc : exists n, n < 10 /\ c = (48 + N.of_nat n)%N).
    { exists (N.to_nat (c - 48)). split; lia. }
    destruct Hc as (n & Hn & ->).
    do 10 (destruct n as [|n]; [eexists; vm_compute; tauto|]). lia.
  - assert (Hc : exists n, n < 6 /\ c = (97 + N.of_nat n)%N).
    { exists (N.to_nat (c - 97)). split; lia. }
    destruct Hc as (n & Hn & ->).
    do 6 (destruct n as [|n]; [eexists; vm_compute; tauto|]). lia.
Qed.

Ltac in_table H :=
  repeat (destruct H as [H|H]; [inversion H; subst; clear H|]);
  try contradiction.

(** A pair of hex digits, upper or lower case, is read as its value. *)
Lemma hex_pair_value (c1 c2 : code_unit) (d1 d2 : N) :
  digit_value 16 c1 = Some d1 ->
  digit_value 16 c2 = Some d2 ->
  Byte.to_N (ToUint8 (parseInt [c1; c2] 16)) = (16 * d1 + d2)%N.
Proof.
  intros H1 H2.
  apply digit_value_16_cases in H1. apply digit_value_16_cases in H2.
  unfold hex_table, lower_hex_table in H1, H2. cbn [app In] in H1, H2.
  in_table H1; in_table H2; reflexivity.
Qed.

(** A pair of the digits the encoder writes is decoded to a byte that
    is encoded as that pair. *)
Lemma lower_hex_pair_fixed (c1 c2 : code_unit) :
  is_lower_hex c1 = true ->
  is_lower_hex c2 = true ->
  two_hex_digits (ToUint8 (parseInt [c1; c2] 16)) = [c1; c2].
Proof.
  intros H1 H2.
  apply is_lower_hex_cases in H1. apply is_lower_hex_cases in H2.
  destruct H1 as (d1 & H1). destruct H2 as (d2 & H2).
  unfold lower_hex_table in H1, H2. cbn [In] in H1, H2.
  in_table H1; in_table H2; reflexivity.
Qed.

Lemma substr_pair_in_range (s : jsstring) (j : nat) (c1 c2 : code_unit) :
  substr s (2 * j) 2 = [c1; c2] -> j < length s / 2.
Proof.
  unfold substr. intros H.
  assert (HL : length (firstn 2 (skipn (2 * j) s)) = 2) by now rewrite H.
  rewrite length_firstn, length_skipn in HL.
  assert (2 * (j + 1) <= length s) by lia.
  assert (2 * (j + 1) / 2 <= length s / 2) by now apply Nat.Div0.div_le_mono.
  rewrite Nat.mul_comm, Nat.div_mul in H1 by lia. lia.
Qed.

(** X2. Where the input has two hex digits, upper or lower case, at the
    positions [2j] and [2j + 1] after the optional prefix, byte [j] of
    the result is sixteen times the first digit plus the second. *)
Theorem serializeBufferFromStorage_hex_pair :
  forall (str : jsstring) (j : nat) (c1 c2 : code_unit) (d1 d2 : N),
    substr (strip_0x str) (2 * j) 2 = [c1; c2] ->
    digit_value 16 c1 = Some d1 ->
    digit_value 16 c2 = Some d2 ->
    exists b, nth_error (serializeBufferFromStorage str) j = Some b
              /\ Byte.to_N b = (16 * d1 + d2)%N.
Proof.
  intros str j c1 c2 d1 d2 Hsub H1 H2.
  destruct (serializeBufferFromStorage_spec str) as [_ HN].
  rewrite (HN j (substr_pair_in_range _ _ _ _ Hsub)), Hsub.
  eexists. split; [reflexivity|]. now apply hex_pair_value.
Qed.

Lemma serializeBufferFromStorage_hex_pair_witness :
  exists b, nth_error (serializeBufferFromStorage (js "0x1fAB")) 1 = Some b
            /\ Byte.to_N b = (16 * 10 + 11)%N.
Proof.
  apply (serializeBufferFromStorage_hex_pair (js "0x1fAB") 1 65 66 10 11)%N;
    reflexivity.
Defined.

(** ** Canonical strings *)

Lemma strip_0x_lower_hex (s : jsstring) :
  forallb is_lower_hex s = true -> strip_0x s = s.
Proof.
  intros H. unfold strip_0x, slice_to.
  destruct s as [|c1 [|c2 rest]]; [reflexivity | |].
  - cbn. now rewrite andb_false_r.
  - cbn [forallb] in H. apply andb_prop in H. destruct H as [_ H].
    apply andb_prop in H. destruct H as [H2 _].
    apply is_lower_hex_cases in H2. destruct H2 as (d & H2).
    unfold lower_hex_table in H2. cbn [In] in H2.
    in_table H2; cbn; now rewrite ?andb_false_r.
Qed.

Lemma encode_decode_pairs (s : jsstring) :
  forallb is_lower_hex s = true ->
  Nat.even (length s) = true ->
  flat_map two_hex_digits (decode_pairs s) = s.
Proof.
  induction s as [| c | c1 c2 rest IH] using pair_induction; intros Hhex Heven.
  - reflexivity.
  - discriminate Heven.
  - cbn [forallb] in Hhex. apply andb_prop in Hhex. destruct Hhex as [H1 Hhex].
    apply andb_prop in Hhex. destruct Hhex as [H2 Hhex].
    cbn [decode_pairs flat_map]. rewrite (lower_hex_pair_fixed _ _ H1 H2).
    cbn [app]. now rewrite IH.
Qed.

(** X3. A string of an even number of lowercase hex digits, with or
    without the prefix, is decoded to the buffer that is written back
    as that string with the prefix. *)
Theorem serializeBufferForStorage_of_decoded :
  forall s : jsstring,
    forallb is_lower_hex s = true ->
    Nat.even (length s) = true ->
    serializeBufferForStorage (serializeBufferFromStorage (js "0x" ++ s))
    = js "0x" ++ s
    /\ serializeBufferForStorage (serializeBufferFromStorage s) = js "0x" ++ s.
Proof.
  intros s Hhex Heven.
  rewrite !serializeBufferFromStorage_pairs, !serializeBufferForStorage_format.
  rewrite (strip_0x_lower_hex s Hhex).
  change (strip_0x (js "0x" ++ s)) with s.
  unfold hex_storage_format. now rewrite encode_decode_pairs.
Qed.

Lemma serializeBufferForStorage_of_decoded_witness :
  serializeBufferForStorage (serializeBufferFromStorage (js "0x" ++ js "00ff1a"))
  = js "0x" ++ js "00ff1a"
  /\ serializeBufferForStorage (serializeBufferFromStorage (js "00ff1a"))
     = js "0x" ++ js "00ff1a".
Proof.
  apply (serializeBufferForStorage_of_decoded (js "00ff1a")); reflexivity.
Defined.

(** ** Input that is not hex *)

Lemma decode_pairs_unpaired (s : jsstring) (c : code_unit) :
  Nat.even (length s) = true ->
  decode_pairs (s ++ [c]) = decode_pairs s.
Proof.
  induction s as [| c0 | c1 c2 rest IH] using pair_induction; intros Heven.
  - reflexivity.
  - discriminate Heven.
  - cbn [app decode_pairs]. now rewrite IH.
Qed.

Lemma strip_0x_unpaired (s : jsstring) (c : code_unit) :
  Nat.even (length s) = true ->
  strip_0x (s ++ [c]) = strip_0x s ++ [c]
  /\ Nat.even (length (strip_0x s)) = true.
Proof.
  intros Heven. destruct s as [|c1 [|c2 rest]].
  - split; [|reflexivity]. unfold strip_0x, slice_to. cbn.
    now rewrite andb_false_r.
  - discriminate Heven.
  - unfold strip_0x, slice_to, slice_from. cbn [app firstn skipn].
    destruct (jsstring_eqb [c1; c2] (js "0x")); split; auto.
Qed.

(** X4. A character appended to an input of even length changes
    nothing: the last, unpaired character is never decoded. *)
Theorem serializeBufferFromStorage_unpaired :
  forall (s : jsstring) (c : code_unit),
    Nat.even (length s) = true ->
    serializeBufferFromStorage (s ++ [c]) = serializeBufferFromStorage s.
Proof.
  intros s c Heven.
  destruct (strip_0x_unpaired s c Heven) as [Hs He].
  rewrite !serializeBufferFromStorage_pairs, Hs.
  now apply decode_pairs_unpaired.
Qed.

Lemma serializeBufferFromStorage_unpaired_witness :
  serializeBufferFromStorage (js "0xab" ++ [102%N])
  = serializeBufferFromStorage (js "0xab").
Proof.
  apply (serializeBufferFromStorage_unpaired (js "0xab") 102%N). reflexivity.
Defined.

Lemma parseInt_not_a_number (c : code_unit) (rest : jsstring) :
  digit_value 16 c = None ->
  is_whitespace c = false ->
  c <> 45%N -> c <> 43%N ->
  parseInt (c :: rest) 16 = None.
Proof.
  intros Hd Hw Hm Hp. unfold parseInt. cbn [trim_start]. rewrite Hw.
  assert (Hparse : parse_digits 16 (c :: rest) None = None).
  { cbn [parse_digits]. now rewrite Hd. }
  cbn [N.eqb N.ltb N.compare negb andb orb Pos.compare Pos.compare_cont].
  repeat match goal with
         | |- context [match ?p with xI _ => _ | xO _ => _ | xH => _ end] =>
             is_var p; destruct p
         | |- context [match ?n with N0 => _ | Npos _ => _ end] =>
             is_var n; destruct n
         end;
    try congruence; try (now rewrite Hparse); try discriminate Hd.
Qed.

Lemma parseInt_first_digit (c1 c2 : code_unit) (d1 : N) :
  digit_value 16 c1 = Some d1 ->
  digit_value 16 c2 = None ->
  Byte.to_N (ToUint8 (parseInt [c1; c2] 16)) = d1.
Proof.
  intros H1 H2.
  assert (Hparse : parse_digits 16 [c1; c2] None = Some d1).
  { cbn [parse_digits]. now rewrite H1, H2. }
  apply digit_value_16_cases in H1.
  unfold hex_table, lower_hex_table in H1. cbn [app In] in H1.
  in_table H1; unfold parseInt; cbn -[parse_digits ToUint8 Z.mul];
    try (rewrite Hparse; reflexivity).
  destruct ((c2 =? 120) || (c2 =? 88))%N; [reflexivity|].
  rewrite Hparse. reflexivity.
Qed.

Lemma parseInt_skipped_first (c1 c2 : code_unit) (d2 : N) :
  is_whitespace c1 = true \/ c1 = 43%N ->
  digit_value 16 c2 = Some d2 ->
  Byte.to_N (ToUint8 (parseInt [c1; c2] 16)) = d2.
Proof.
  intros H1 H2. apply digit_value_16_cases in H2.
  unfold hex_table, lower_hex_table in H2. cbn [app In] in H2.
  destruct H1 as [Hw| ->].
  - unfold parseInt. cbn [trim_start]. rewrite Hw.
    in_table H2; reflexivity.
  - in_table H2; reflexivity.
Qed.

Lemma parseInt_minus_digit (c2 : code_unit) (d2 : N) :
  digit_value 16 c2 = Some d2 ->
  Byte.to_N (ToUint8 (parseInt [45%N; c2] 16)) = ((256 - d2) mod 256)%N.
Proof.
  intros H2. apply digit_value_16_cases in H2.
  unfold hex_table, lower_hex_table in H2. cbn [app In] in H2.
  in_table H2; reflexivity.
Qed.

(** X5. What a pair that is not two hex digits is decoded to, without
    an error: a hex digit followed by another character gives the
    digit's value; a white-space character or [+] followed by a hex digit
    gives that digit's value; [-] followed by the digit [d] gives
    [256 - d] modulo 256; a first character that is no hex digit, white
    space or sign gives [0]. *)
Theorem serializeBufferFromStorage_odd_pairs :
  forall (str : jsstring) (j : nat) (c1 c2 : code_unit),
    substr (strip_0x str) (2 * j) 2 = [c1; c2] ->
    exists b,
      nth_error (serializeBufferFromStorage str) j = Some b
      /\ (forall d1, digit_value 16 c1 = Some d1 -> digit_value 16 c2 = None ->
                     Byte.to_N b = d1)
      /\ (forall d2, is_whitespace c1 = true \/ c1 = 43%N ->
                     digit_value 16 c2 = Some d2 -> Byte.to_N b = d2)
      /\ (forall d2, c1 = 45%N -> digit_value 16 c2 = Some d2 ->
                     Byte.to_N b = ((256 - d2) mod 256)%N)
      /\ (digit_value 16 c1 = None -> is_whitespace c1 = false ->
          c1 <> 45%N -> c1 <> 43%N -> b = x00).
Proof.
  intros str j c1 c2 Hsub.
  destruct (serializeBufferFromStorage_spec str) as [_ HN].
  rewrite (HN j (substr_pair_in_range _ _ _ _ Hsub)), Hsub.
  eexists. split; [reflexivity|]. repeat split.
  - intros d1 H1 H2. now apply parseInt_first_digit.
  - intros d2 H1 H2. now apply parseInt_skipped_first.
  - intros d2 -> H2. now apply parseInt_minus_digit.
  - intros Hd Hw Hm Hp. now rewrite parseInt_not_a_number.
Qed.

Lemma serializeBufferFromStorage_odd_pairs_witness :
  exists b,
    nth_error (serializeBufferFromStorage (js "7g-1")) 1 = Some b
    /\ Byte.to_N b = 255%N.
Proof.
  destruct (serializeBufferFromStorage_odd_pairs (js "7g-1") 1 45%N 49%N eq_refl)
    as (b & Hb & _ & _ & Hminus & _).
  exists b. split; [exact Hb|]. exact (Hminus 1%N eq_refl eq_refl).
Defined.

(** ** The vault codec with a key *)

Section MoreCodecFacts.

Variable P : Platform.

Lemma decrypt_with_key_steps (password text : jsstring) (payload : json)
      (salt : jsvalue) (key : CryptoKey) :
  JSON_parse P text = Some payload ->
  get_prop payload (js "salt") = Ok salt ->
  decrypt P password text (Some key) = decryptWithKey P key payload.
Proof.
  intros Hp Hs. unfold decrypt, JSON_parse_or_throw. rewrite Hp.
  cbn [bind ret result_monad]. rewrite Hs. cbn [bind ret result_monad].
  destruct (decryptWithKey P key payload); reflexivity.
Qed.

Lemma decryptWithDetail_steps (password text : jsstring) (payload : json)
      (salt : jsvalue) (key : CryptoKey) (keyString : jsstring) :
  JSON_parse P text = Some payload ->
  get_prop payload (js "salt") = Ok salt ->
  keyFromPassword P password salt true = Ok key ->
  exportKey P key = Ok keyString ->
  decryptWithDetail P password text
  = (vault <- decryptWithKey P key payload ;;
     ret {| ddr_exportedKeyString := keyString;
            ddr_vault := vault;
            ddr_salt := salt |}).
Proof.
  intros Hp Hs Hk He.
  pose proof (decrypt_with_key_steps password text payload salt key Hp Hs) as Hd.
  unfold decryptWithDetail, JSON_parse_or_throw. rewrite Hp.
  cbn [bind ret result_monad]. rewrite Hs. cbn [bind ret result_monad].
  rewrite Hk. cbn [bind ret result_monad]. rewrite He.
  cbn [bind ret result_monad]. rewrite Hd. reflexivity.
Qed.

(** What a successful [encryptWithDetail] did. *)
Lemma encryptWithDetail_inv (password : jsstring) (dataObj : json)
      (salt : option jsstring) (w w' : world P)
      (r : DetailedEncryptionResult) :
  encryptWithDetail P password dataObj salt w = (Ok r, w') ->
  exists (s : jsstring) (w1 : world P) (key : CryptoKey) (vector ct : bytes),
    match salt with
    | Some s0 => s = s0 /\ w1 = w
    | None => generateSalt P 32 w = (Ok s, w1)
    end
    /\ keyFromPassword P password (Some (JStr s)) true = Ok key
    /\ exportKey P key = Ok (der_exportedKeyString r)
    /\ subtle_encrypt P (AlgAesGcm DERIVED_KEY_FORMAT vector) key
         (Buffer_from_string P (JSON_stringify P dataObj) STRING_ENCODING) = Ok ct
    /\ der_vault r = JSON_stringify P
                       (vault_object (Buffer_toString P ct (js "base64"))
                                     (Buffer_toString P vector (js "base64")) s).
Proof.
  unfold encryptWithDetail. intros H.
  apply bind_M_inv in H. destruct H as (s & w1 & Hs & H).
  apply bind_M_inv in H. destruct H as (key0 & w2 & Hk & H).
  apply lift_inv in Hk. destruct Hk as [Hk ->].
  apply bind_M_inv in H. destruct H as (eks & w3 & He & H).
  apply lift_inv in He. destruct He as [He ->].
  apply bind_M_inv in H. destruct H as (vault & w4 & Henc & H).
  apply ret_M_inv in H. destruct H as [-> ->].
  cbn [der_vault der_exportedKeyString].
  apply encrypt_inv in Henc.
  destruct Henc as (s' & w1' & k & vector & ct & [-> _] & -> & _ & Hct & ->).
  exists s, w1, key0, vector, ct. repeat split; auto.
  destruct salt as [s0|]; [|exact Hs].
  apply ret_M_inv in Hs. destruct Hs as [-> ->]. auto.
Qed.

Lemma keyFromPassword_flag (password : jsstring) (salt : jsvalue)
      (e1 e2 : bool) (k1 : CryptoKey) :
  extractable_flag_irrelevant P ->
  keyFromPassword P password salt e1 = Ok k1 ->
  exists k2,
    keyFromPassword P password salt e2 = Ok k2
    /\ forall alg ct, subtle_decrypt P alg k2 ct = subtle_decrypt P alg k1 ct.
Proof.
  intros Hflag H. unfold keyFromPassword in *.
  apply bind_result_inv in H. destruct H as (pb & Hpb & H).
  apply bind_result_inv in H. destruct H as (sb & Hsb & H).
  apply bind_result_inv in H. destruct H as (base & Hbase & H).
  apply bind_result_inv in H. destruct H as (dk & Hdk & H).
  inversion H; subst dk.
  destruct (Hflag _ _ _ _ e1 e2 _ Hdk) as (k2 & Hk2 & Hsame).
  exists k2. split; [|exact Hsame].
  rewrite Hpb. cbn [bind ret result_monad]. rewrite Hsb.
  cbn [bind ret result_monad]. rewrite Hbase. cbn [bind ret result_monad].
  now rewrite Hk2.
Qed.

(** X6. What [encryptWithKey] returns, [decryptWithKey] turns back into
    the payload under the same key, if the key may decrypt: no password
    and no salt are involved. *)
Theorem decryptWithKey_encryptWithKey :
  base64_roundtrip P ->
  utf8_roundtrip_on_json P ->
  aes_gcm_decrypts_own P ->
  forall (key : CryptoKey) (dataObj dataObj' : json) (w w' : world P)
         (payload : list (jsstring * json)),
    In (js "decrypt") (key_usages key) ->
    JSON_parse P (JSON_stringify P dataObj) = Some dataObj' ->
    encryptWithKey P key dataObj w = (Ok payload, w') ->
    decryptWithKey P key (JObj payload) = Ok dataObj'.
Proof.
  intros B64 Utf8 Aes key dataObj dataObj' w w' payload Hus Hjson Henc.
  apply encryptWithKey_inv in Henc. destruct Henc as (vector & ct & _ & Hct & ->).
  eapply (decryptWithKey_ok P key _
            (Some (JStr (Buffer_toString P ct (js "base64"))))
            (Some (JStr (Buffer_toString P vector (js "base64"))))).
  - reflexivity.
  - cbn [Buffer_from]. now rewrite B64.
  - reflexivity.
  - cbn [Buffer_from]. now rewrite B64.
  - apply Aes; [exact Hus | exact Hct].
  - now rewrite Utf8.
Qed.

(** X7. A vault that [encrypt] made with a caller's key is decrypted
    by [decrypt] with that key, if the key may decrypt, whatever the two
    passwords are. *)
Theorem decrypt_encrypt_with_key :
  base64_roundtrip P ->
  utf8_roundtrip_on_json P ->
  json_roundtrip_on_vaults P ->
  aes_gcm_decrypts_own P ->
  forall (password1 password2 : jsstring) (dataObj dataObj' : json)
         (key : CryptoKey) (salt : option jsstring) (w w' : world P)
         (vault : jsstring),
    In (js "decrypt") (key_usages key) ->
    JSON_parse P (JSON_stringify P dataObj) = Some dataObj' ->
    encrypt P password1 dataObj (Some key) salt w = (Ok vault, w') ->
    decrypt P password2 vault (Some key) = Ok dataObj'.
Proof.
  intros B64 Utf8 Jv Aes password1 password2 dataObj dataObj' key salt w w'
         vault Hus Hjson Henc.
  apply encrypt_inv in Henc.
  destruct Henc as (s & w1 & k & vector & ct & _ & -> & _ & Hct & ->).
  rewrite (decrypt_with_key_steps password2 _ (vault_object _ _ s)
             (Some (JStr s)) key (Jv _ _ _) eq_refl).
  apply (decryptWithKey_vault_object P _ dataObj); auto.
Qed.

(** X8. Also with a caller's key, the vault of [encrypt] parses to the
    object of exactly [data], [iv] and [salt], in this order: [salt] is
    the argument or the drawn salt, [iv] encodes the sixteen bytes
    drawn last, [data] the ciphertext made with them. *)
Theorem vault_fields_of_encrypt :
  json_roundtrip_on_vaults P ->
  forall (password : jsstring) (dataObj : json) (key : option CryptoKey)
         (salt : option jsstring) (w w' : world P) (vault : jsstring),
    encrypt P password dataObj key salt w = (Ok vault, w') ->
    exists (s : jsstring) (w1 : world P) (k : CryptoKey) (vector ct : bytes),
      match salt with
      | Some s0 => s = s0 /\ w1 = w
      | None => generateSalt P 32 w = (Ok s, w1)
      end
      /\ crypto_getRandomValues P 16 w1 = (Ok vector, w')
      /\ subtle_encrypt P (AlgAesGcm DERIVED_KEY_FORMAT vector) k
           (Buffer_from_string P (JSON_stringify P dataObj) STRING_ENCODING)
         = Ok ct
      /\ JSON_parse P vault
         = Some (JObj [(js "data", JStr (Buffer_toString P ct (js "base64")));
                       (js "iv", JStr (Buffer_toString P vector (js "base64")));
                       (js "salt", JStr s)]).
Proof.
  intros Jv password dataObj key salt w w' vault Henc.
  apply encrypt_inv in Henc.
  destruct Henc as (s & w1 & k & vector & ct & Hs & _ & Hv & Hct & ->).
  exists s, w1, k, vector, ct.
  split; [exact Hs|]. split; [exact Hv|]. split; [exact Hct|]. apply Jv.
Qed.

(** ** The detail variants *)

(** X9. [decryptWithDetail] on the vault of [encryptWithDetail], with
    the same password, returns the payload, the same exported key
    string and the salt of the vault: the [salt] field of the parsed
    vault, which is the salt argument or the salt that was drawn. *)
Theorem decryptWithDetail_encryptWithDetail :
  base64_roundtrip P ->
  utf8_roundtrip_on_json P ->
  json_roundtrip_on_vaults P ->
  aes_gcm_decrypts_own P ->
  derived_key_attributes P ->
  forall (password : jsstring) (dataObj dataObj' : json)
         (salt : option jsstring) (w w' : world P)
         (r : DetailedEncryptionResult),
    JSON_parse P (JSON_stringify P dataObj) = Some dataObj' ->
    encryptWithDetail P password dataObj salt w = (Ok r, w') ->
    exists (s : jsstring) (payload : json),
      decryptWithDetail P password (der_vault r)
      = Ok {| ddr_exportedKeyString := der_exportedKeyString r;
              ddr_vault := dataObj';
              ddr_salt := Some (JStr s) |}
      /\ JSON_parse P (der_vault r) = Some payload
      /\ get_prop payload (js "salt") = Ok (Some (JStr s))
      /\ match salt with
         | Some s0 => s = s0
         | None => exists w1, generateSalt P 32 w = (Ok s, w1)
         end.
Proof.
  intros B64 Utf8 Jv Aes Attr password dataObj dataObj' salt w w' r Hjson H.
  apply encryptWithDetail_inv in H.
  destruct H as (s & w1 & key & vector & ct & Hs & Hk & He & Hct & Hv).
  destruct (keyFromPassword_attributes P _ _ _ _ Attr Hk) as (_ & _ & Hus).
  exists s, (vault_object (Buffer_toString P ct (js "base64"))
                          (Buffer_toString P vector (js "base64")) s).
  rewrite Hv. split; [|split; [apply Jv | split; [reflexivity|]]].
  - rewrite (decryptWithDetail_steps password _ (vault_object _ _ s)
               (Some (JStr s)) key _ (Jv _ _ _) eq_refl Hk He).
    rewrite (decryptWithKey_vault_object P key dataObj dataObj'); auto.
    apply Aes; [|exact Hct]. rewrite Hus. right; left; reflexivity.
  - destruct salt as [s0|]; [tauto | eauto].
Qed.

(** X10. The vault of [encryptWithDetail] is an ordinary vault:
    [decrypt] opens it with the password alone. *)
Theorem decrypt_vault_of_encryptWithDetail :
  base64_roundtrip P ->
  utf8_roundtrip_on_json P ->
  json_roundtrip_on_vaults P ->
  aes_gcm_decrypts_own P ->
  derived_key_attributes P ->
  extractable_flag_irrelevant P ->
  forall (password : jsstring) (dataObj dataObj' : json)
         (salt : option jsstring) (w w' : world P)
         (r : DetailedEncryptionResult),
    JSON_parse P (JSON_stringify P dataObj) = Some dataObj' ->
    encryptWithDetail P password dataObj salt w = (Ok r, w') ->
    decrypt P password (der_vault r) None = Ok dataObj'.
Proof.
  intros B64 Utf8 Jv Aes Attr Flag password dataObj dataObj' salt w w' r Hjson H.
  apply encryptWithDetail_inv in H.
  destruct H as (s & w1 & key & vector & ct & _ & Hk & _ & Hct & Hv).
  destruct (keyFromPassword_attributes P _ _ _ _ Attr Hk) as (_ & _ & Hus).
  destruct (keyFromPassword_flag _ _ true false _ Flag Hk) as (k2 & Hk2 & Hsame).
  rewrite Hv.
  rewrite (decrypt_steps P password _ (vault_object _ _ s) (Some (JStr s))
             (Jv _ _ _) eq_refl).
  rewrite Hk2. cbn [bind result_monad].
  apply (decryptWithKey_vault_object P _ dataObj); auto.
  rewrite Hsame. apply Aes; [|exact Hct]. rewrite Hus. right; left; reflexivity.
Qed.

(** X11. [decryptWithDetail] on a vault that [encrypt] made from the
    same password returns the payload and the salt of the vault (the
    [salt] field of the parsed vault, which is the salt argument or the
    salt that was drawn), and a key string that [importKey] turns into
    a key with which [decryptWithKey] opens the vault again. *)
Theorem decryptWithDetail_encrypt :
  base64_roundtrip P ->
  utf8_roundtrip_on_json P ->
  json_roundtrip_on_vaults P ->
  json_roundtrip_on_jwk P ->
  aes_gcm_decrypts_own P ->
  derived_key_attributes P ->
  extractable_flag_irrelevant P ->
  extractable_key_exports P ->
  jwk_import_of_export P ->
  forall (password : jsstring) (dataObj dataObj' : json)
         (salt : option jsstring) (w w' : world P) (vault : jsstring),
    JSON_parse P (JSON_stringify P dataObj) = Some dataObj' ->
    encrypt P password dataObj None salt w = (Ok vault, w') ->
    exists (r : DetailedDecryptResult) (s : jsstring) (payload : json)
           (key : CryptoKey),
      decryptWithDetail P password vault = Ok r
      /\ ddr_vault r = dataObj'
      /\ ddr_salt r = Some (JStr s)
      /\ JSON_parse P vault = Some payload
      /\ get_prop payload (js "salt") = Ok (ddr_salt r)
      /\ match salt with
         | Some s0 => s = s0
         | None => exists w1, generateSalt P 32 w = (Ok s, w1)
         end
      /\ importKey P (ddr_exportedKeyString r) = Ok key
      /\ decryptWithKey P key payload = Ok dataObj'.
Proof.
  intros B64 Utf8 Jv Jk Aes Attr Flag Exp Imp
         password dataObj dataObj' salt w w' vault Hjson Henc.
  apply encrypt_inv in Henc.
  destruct Henc as (s & w1 & k1 & vector & ct & Hs & Hk1 & _ & Hct & ->).
  destruct (keyFromPassword_attributes P _ _ _ _ Attr Hk1) as (_ & _ & Hus1).
  destruct (keyFromPassword_flag _ _ false true _ Flag Hk1) as (k2 & Hk2 & Hsame).
  destruct (keyFromPassword_attributes P _ _ _ _ Attr Hk2) as (Halg & Hext & Hus2).
  destruct (Exp k2 Hext Halg) as (jwk & Hjwk).
  destruct (Imp k2 jwk Halg Hus2 Hjwk) as (k3 & Hk3 & Hsame3).
  assert (Hdec : subtle_decrypt P (AlgAesGcm DERIVED_KEY_FORMAT vector) k2 ct
                 = Ok (Buffer_from_string P (JSON_stringify P dataObj)
                         STRING_ENCODING)).
  { rewrite Hsame. apply Aes; [|exact Hct]. rewrite Hus1. right; left; reflexivity. }
  assert (He : exportKey P k2 = Ok (JSON_stringify P jwk)).
  { unfold exportKey. now rewrite Hjwk. }
  eexists _, s, (vault_object _ _ s), k3.
  split; [|split; [|split; [|split; [apply Jv | split; [|split; [|split]]]]]].
  - rewrite (decryptWithDetail_steps password _ (vault_object _ _ s)
               (Some (JStr s)) k2 _ (Jv _ _ _) eq_refl Hk2 He).
    rewrite (decryptWithKey_vault_object P k2 dataObj dataObj'); auto.
    reflexivity.
  - reflexivity.
  - reflexivity.
  - reflexivity.
  - destruct salt as [s0|]; [tauto | eauto].
  - cbn [ddr_exportedKeyString]. unfold importKey, JSON_parse_or_throw.
    rewrite (Jk _ _ Hjwk). cbn [bind result_monad]. now rewrite Hk3.
  - apply (decryptWithKey_vault_object P _ dataObj); auto.
    now rewrite Hsame3.
Qed.

(** X12. With a password whose derived key fails on the ciphertext of
    the vault, [decryptWithDetail] fails with
    [Error("Incorrect password")] and returns no key string, although it
    exports the key before it decrypts. *)
Theorem decryptWithDetail_wrong_password :
  derived_key_attributes P ->
  extractable_key_exports P ->
  forall (password text : jsstring) (payload : json) (salt data iv : jsvalue)
         (key : CryptoKey) (encryptedData vector : bytes) (e : exn),
    JSON_parse P text = Some payload ->
    get_prop payload (js "salt") = Ok salt ->
    keyFromPassword P password salt true = Ok key ->
    get_prop payload (js "data") = Ok data ->
    Buffer_from P data (js "base64") = Ok encryptedData ->
    get_prop payload (js "iv") = Ok iv ->
    Buffer_from P iv (js "base64") = Ok vector ->
    subtle_decrypt P (AlgAesGcm DERIVED_KEY_FORMAT vector) key encryptedData
    = Err e ->
    (exists keyString, exportKey P key = Ok keyString)
    /\ decryptWithDetail P password text
       = Err (Error (js "Incorrect password")).
Proof.
  intros Attr Exp password text payload salt data iv key ed vec e
         Hp Hs Hk Hd He Hi Hv Hdec.
  destruct (keyFromPassword_attributes P _ _ _ _ Attr Hk) as (Halg & Hext & _).
  destruct (Exp key Hext Halg) as (jwk & Hjwk).
  assert (Hexp : exportKey P key = Ok (JSON_stringify P jwk)).
  { unfold exportKey. now rewrite Hjwk. }
  split; [eauto|].
  rewrite (decryptWithDetail_steps password text payload salt key _
             Hp Hs Hk Hexp).
  now rewrite (decryptWithKey_rejected P key payload _ _ _ _ e Hd He Hi Hv Hdec).
Qed.

(** X13. The key that [keyFromPassword] derives can be exported exactly
    when it was asked for as exportable: by default, and so for the key
    [encrypt] and [decrypt] derive, [exportKey] fails, with the error
    the platform raises, which it passes on unchanged. *)
Theorem exportKey_of_keyFromPassword :
  derived_key_attributes P ->
  extractable_key_exports P ->
  non_extractable_key_refused P ->
  forall (password : jsstring) (salt : jsvalue) (exportable : bool)
         (key : CryptoKey),
    keyFromPassword P password salt exportable = Ok key ->
    if exportable
    then exists keyString, exportKey P key = Ok keyString
    else exists e, subtle_exportKey P EXPORT_FORMAT key = Err e
                   /\ exportKey P key = Err e.
Proof.
  intros Attr Exp Rej password salt exportable key Hk.
  destruct (keyFromPassword_attributes P _ _ _ _ Attr Hk) as (Halg & Hext & _).
  destruct exportable.
  - destruct (Exp key Hext Halg) as (jwk & Hjwk).
    exists (JSON_stringify P jwk). unfold exportKey. now rewrite Hjwk.
  - destruct (Rej key Hext) as (e & He).
    exists e. split; [exact He|]. unfold exportKey. now rewrite He.
Qed.

(** ** Errors that are not the incorrect-password error *)

(** X14. [decryptWithKey] turns into [Error("Incorrect password")] only
    what happens inside its guarded block.  When [data] and [iv] are
    strings it returns a value or fails with exactly that error; when
    [data], or [iv] beside a string [data], is missing, [null], a
    boolean or a number, it fails with a [TypeError]; and so it does on
    the payload [null]. *)
Theorem decryptWithKey_errors :
  forall (key : CryptoKey) (payload : json),
    (forall d i : jsstring,
        get_prop payload (js "data") = Ok (Some (JStr d)) ->
        get_prop payload (js "iv") = Ok (Some (JStr i)) ->
        (exists v, decryptWithKey P key payload = Ok v)
        \/ decryptWithKey P key payload = Err (Error (js "Incorrect password")))
    /\ (forall data : jsvalue,
           get_prop payload (js "data") = Ok data ->
           not_bufferable data = true ->
           decryptWithKey P key payload = Err TypeError)
    /\ (forall (d : jsstring) (iv : jsvalue),
           get_prop payload (js "data") = Ok (Some (JStr d)) ->
           get_prop payload (js "iv") = Ok iv ->
           not_bufferable iv = true ->
           decryptWithKey P key payload = Err TypeError)
    /\ (payload = JNull -> decryptWithKey P key payload = Err TypeError).
Proof.
  intros key payload. repeat split.
  - intros d i Hd Hi.
    rewrite (decryptWithKey_guarded P key payload _ _ _ _ Hd eq_refl Hi eq_refl).
    destruct (subtle_decrypt P _ key _) as [pt|e]; [|right; reflexivity].
    cbn [bind result_monad]. unfold JSON_parse_or_throw.
    destruct (JSON_parse P _) as [v|]; [left; exists v | right]; reflexivity.
  - intros data Hd Hn. unfold decryptWithKey. rewrite Hd.
    cbn [bind result_monad].
    destruct data as [[| | | | |]|]; try discriminate Hn; reflexivity.
  - intros d iv Hd Hi Hn. unfold decryptWithKey. rewrite Hd.
    cbn [bind result_monad Buffer_from]. rewrite Hi. cbn [bind result_monad].
    destruct iv as [[| | | | |]|]; try discriminate Hn; reflexivity.
  - intros ->. reflexivity.
Qed.

(** X15. A text that is not JSON makes [decrypt] (with or without a
    key), [decryptWithDetail] and [importKey] fail with the
    [SyntaxError] of [JSON.parse], and the text [null] makes [decrypt]
    and [decryptWithDetail] fail with a [TypeError]: neither is
    reported as an incorrect password, and no key is derived. *)
Theorem errors_before_decryption :
  forall (password text : jsstring) (key : option CryptoKey),
    (JSON_parse P text = None ->
     decrypt P password text key = Err SyntaxError
     /\ decryptWithDetail P password text = Err SyntaxError
     /\ importKey P text = Err SyntaxError)
    /\ (JSON_parse P text = Some JNull ->
        decrypt P password text key = Err TypeError
        /\ decryptWithDetail P password text = Err TypeError).
Proof.
  intros password text key. split; intros H;
    unfold decrypt, decryptWithDetail, importKey, JSON_parse_or_throw;
    rewrite H; repeat split.
Qed.

(** ** The drawn salt *)

(** X16. The salt string of [generateSalt] stands for exactly the bytes
    it drew: decoded as [keyFromPassword] decodes a salt, it gives them
    back, and the random source is left as that one draw left it. *)
Theorem generateSalt_decodes_to_drawn_bytes :
  btoa_is_base64 P ->
  forall (byteCount : nat) (w w' : world P) (salt : jsstring),
    generateSalt P byteCount w = (Ok salt, w') ->
    exists view : bytes,
      crypto_getRandomValues P byteCount w = (Ok view, w')
      /\ Buffer_from P (Some (JStr salt)) (js "base64") = Ok view.
Proof.
  intros Hb byteCount w w' salt H. unfold generateSalt in H.
  apply bind_M_inv in H. destruct H as (view & w1 & Hv & H).
  apply bind_M_inv in H. destruct H as (s & w2 & Hs & H).
  apply lift_inv in Hs. destruct Hs as [Hs ->].
  apply ret_M_inv in H. destruct H as [-> ->].
  exists view. split; [exact Hv|].
  cbn [Buffer_from]. now rewrite (Hb view s Hs).
Qed.

End MoreCodecFacts.

(** ** The further properties on the small platform *)

Lemma toy_extractable_flag_irrelevant : extractable_flag_irrelevant Toy.platform.
Proof.
  intros a base d us e1 e2 k1 H. cbn in H. unfold Toy.derive_key in H.
  destruct a; try discriminate. destruct d; try discriminate.
  inversion H; subst k1. cbn. unfold Toy.derive_key.
  eexists. split; reflexivity.
Qed.

Lemma toy_non_extractable_key_refused :
  non_extractable_key_refused Toy.platform.
Proof. intros k H. cbn. unfold Toy.export_key. rewrite H. eauto. Qed.

Lemma decryptWithKey_encryptWithKey_witness :
  decryptWithKey Toy.platform Toy.sample_key (JObj Toy.sample_encryption)
  = Ok Toy.sample_payload.
Proof.
  apply (decryptWithKey_encryptWithKey Toy.platform
           toy_base64_roundtrip toy_utf8_roundtrip_on_json
           toy_aes_gcm_decrypts_own
           Toy.sample_key Toy.sample_payload Toy.sample_payload 0 16
           Toy.sample_encryption).
  - right; left; reflexivity.
  - reflexivity.
  - vm_compute. reflexivity.
Defined.

Lemma decrypt_encrypt_with_key_witness :
  decrypt Toy.platform (js "another") Samples.vault_with_key
    (Some Toy.sample_key) = Ok Toy.sample_payload.
Proof.
  apply (decrypt_encrypt_with_key Toy.platform
           toy_base64_roundtrip toy_utf8_roundtrip_on_json
           toy_json_roundtrip_on_vaults toy_aes_gcm_decrypts_own
           (js "pw") (js "another") Toy.sample_payload Toy.sample_payload
           Toy.sample_key (Some Toy.sample_salt) 0 16 Samples.vault_with_key).
  - right; left; reflexivity.
  - reflexivity.
  - vm_compute. reflexivity.
Defined.

Lemma vault_fields_of_encrypt_witness :
  exists (s : jsstring) (vector ct : bytes),
    s = Toy.sample_salt
    /\ JSON_parse Toy.platform Samples.vault_with_key
       = Some (JObj [(js "data",
                      JStr (Buffer_toString Toy.platform ct (js "base64")));
                     (js "iv",
                      JStr (Buffer_toString Toy.platform vector (js "base64")));
                     (js "salt", JStr s)]).
Proof.
  destruct (vault_fields_of_encrypt Toy.platform toy_json_roundtrip_on_vaults
              (js "pw") Toy.sample_payload (Some Toy.sample_key)
              (Some Toy.sample_salt) 0 16 Samples.vault_with_key)
    as (s & w1 & k & vector & ct & [Hs _] & _ & _ & Hp).
  - vm_compute. reflexivity.
  - exists s, vector, ct. split; [exact Hs | exact Hp].
Defined.

Lemma decryptWithDetail_encryptWithDetail_witness :
  exists (s : jsstring) (payload : json),
    decryptWithDetail Toy.platform (js "pw") (der_vault Samples.detail_drawn_salt)
    = Ok {| ddr_exportedKeyString :=
              der_exportedKeyString Samples.detail_drawn_salt;
            ddr_vault := Toy.sample_payload;
            ddr_salt := Some (JStr s) |}
    /\ JSON_parse Toy.platform (der_vault Samples.detail_drawn_salt)
       = Some payload
    /\ get_prop payload (js "salt") = Ok (Some (JStr s))
    /\ exists w1, generateSalt Toy.platform 32 0 = (Ok s, w1).
Proof.
  apply (decryptWithDetail_encryptWithDetail Toy.platform
           toy_base64_roundtrip toy_utf8_roundtrip_on_json
           toy_json_roundtrip_on_vaults toy_aes_gcm_decrypts_own
           toy_derived_key_attributes
           (js "pw") Toy.sample_payload Toy.sample_payload
           None 0 48 Samples.detail_drawn_salt);
    vm_compute; reflexivity.
Defined.

Lemma decrypt_vault_of_encryptWithDetail_witness :
  decrypt Toy.platform (js "pw") (der_vault Toy.sample_detail) None
  = Ok Toy.sample_payload.
Proof.
  apply (decrypt_vault_of_encryptWithDetail Toy.platform
           toy_base64_roundtrip toy_utf8_roundtrip_on_json
           toy_json_roundtrip_on_vaults toy_aes_gcm_decrypts_own
           toy_derived_key_attributes toy_extractable_flag_irrelevant
           (js "pw") Toy.sample_payload Toy.sample_payload
           (Some Toy.sample_salt) 0 16 Toy.sample_detail);
    vm_compute; reflexivity.
Defined.

Lemma decryptWithDetail_encrypt_witness :
  exists (r : DetailedDecryptResult) (s : jsstring) (payload : json)
         (key : CryptoKey),
    decryptWithDetail Toy.platform (js "pw") Toy.sample_vault_drawn_salt = Ok r
    /\ ddr_vault r = Toy.sample_payload
    /\ ddr_salt r = Some (JStr s)
    /\ JSON_parse Toy.platform Toy.sample_vault_drawn_salt = Some payload
    /\ get_prop payload (js "salt") = Ok (ddr_salt r)
    /\ (exists w1, generateSalt Toy.platform 32 0 = (Ok s, w1))
    /\ importKey Toy.platform (ddr_exportedKeyString r) = Ok key
    /\ decryptWithKey Toy.platform key payload = Ok Toy.sample_payload.
Proof.
  apply (decryptWithDetail_encrypt Toy.platform
           toy_base64_roundtrip toy_utf8_roundtrip_on_json
           toy_json_roundtrip_on_vaults toy_json_roundtrip_on_jwk
           toy_aes_gcm_decrypts_own toy_derived_key_attributes
           toy_extractable_flag_irrelevant toy_extractable_key_exports
           toy_jwk_import_of_export
           (js "pw") Toy.sample_payload Toy.sample_payload
           None 0 48 Toy.sample_vault_drawn_salt);
    vm_compute; reflexivity.
Defined.

Lemma decryptWithDetail_wrong_password_witness :
  (exists keyString,
      exportKey Toy.platform Samples.wrong_exportable_key = Ok keyString)
  /\ decryptWithDetail Toy.platform (js "no") Toy.sample_vault
     = Err (Error (js "Incorrect password")).
Proof.
  eapply (decryptWithDetail_wrong_password Toy.platform
            toy_derived_key_attributes toy_extractable_key_exports
            (js "no") Toy.sample_vault); reflexivity.
Defined.

Lemma exportKey_of_keyFromPassword_witness :
  exists e, subtle_exportKey Toy.platform EXPORT_FORMAT Samples.derived_key
            = Err e
            /\ exportKey Toy.platform Samples.derived_key = Err e.
Proof.
  apply (exportKey_of_keyFromPassword Toy.platform
           toy_derived_key_attributes toy_extractable_key_exports
           toy_non_extractable_key_refused
           (js "pw") (Some (JStr Toy.sample_salt)) false Samples.derived_key).
  vm_compute. reflexivity.
Defined.

Lemma decryptWithKey_errors_witness :
  ((exists v, decryptWithKey Toy.platform Toy.other_key Toy.not_json_payload
              = Ok v)
   \/ decryptWithKey Toy.platform Toy.other_key Toy.not_json_payload
      = Err (Error (js "Incorrect password")))
  /\ decryptWithKey Toy.platform Toy.sample_key Samples.payload_numeric_data
     = Err TypeError
  /\ decryptWithKey Toy.platform Toy.sample_key Samples.payload_without_iv
     = Err TypeError.
Proof.
  split; [|split].
  - apply (proj1 (decryptWithKey_errors Toy.platform Toy.other_key
                    Toy.not_json_payload)
             [107; 49; 1; 1; 1; 1; 1; 0]%N (js "1")); reflexivity.
  - apply (proj1 (proj2 (decryptWithKey_errors Toy.platform Toy.sample_key
                           Samples.payload_numeric_data))
             (Some (JNum 7))); reflexivity.
  - apply (proj1 (proj2 (proj2 (decryptWithKey_errors Toy.platform
                                  Toy.sample_key Samples.payload_without_iv)))
             (js "k1") undefined); reflexivity.
Defined.

Lemma errors_before_decryption_witness :
  decrypt Toy.platform (js "pw") Samples.not_json (Some Toy.sample_key)
  = Err SyntaxError
  /\ decryptWithDetail Toy.platform (js "pw") Samples.not_json = Err SyntaxError
  /\ importKey Toy.platform Samples.not_json = Err SyntaxError.
Proof.
  apply (proj1 (errors_before_decryption Toy.platform (js "pw")
                  Samples.not_json (Some Toy.sample_key))).
  reflexivity.
Defined.

Lemma toy_btoa_is_base64 : btoa_is_base64 Toy.platform.
Proof.
  intros view s H. cbn in H. inversion H; subst s.
  apply toy_bytes_of_units.
Qed.

Lemma generateSalt_decodes_to_drawn_bytes_witness :
  exists view : bytes,
    crypto_getRandomValues Toy.platform 4 0 = (Ok view, 4)
    /\ Buffer_from Toy.platform (Some (JStr [0; 1; 2; 3]%N)) (js "base64")
       = Ok view.
Proof.
  apply (generateSalt_decodes_to_drawn_bytes Toy.platform toy_btoa_is_base64
           4 0 4 [0; 1; 2; 3]%N).
  reflexivity.
Defined.
